(** * Evaluation harness of the CAD1 task-1 baseline
    (recipes/cad1/task1/baseline/evaluate.py)

    A shallow embedding of the evaluation script: the results file writer,
    the audiogram filter of [compute_haaqi], the per-song seed, the
    enumeration of (song, listener) pairs and the driver loop
    [run_calculate_aq], followed by the properties proved about them.

    Conventions of the embedding.
    - A Python [str] is a Rocq [string]: the sequence of bytes of its UTF-8
      encoding, so that [s.encode("utf-8")] is the list of its characters.
    - An insertion-ordered [dict] is an association list.
    - Integers are [Z]; amplitudes and hearing levels are exact rationals
      [Q]; scores are binary64 floats, added and divided as the hardware
      does ([float], the primitive floats of the kernel).
    - Library calls whose code is outside the script ([wavfile.read],
      [haaqi_v1], [str] of a float, the Mersenne twister behind
      [np.random.seed]) are section variables. *)

From Stdlib Require Import String Ascii ZArith List Bool Lia QArith Qround Qabs.
From Stdlib Require Import DecimalString Lqa.
From Stdlib Require Import PrimFloat SpecFloat FloatOps.
From Stdlib Require Uint63.
Import ListNotations.

(** A decimal literal stands for the nearest binary64 number, as in Python. *)
Set Warnings "-inexact-float".

Local Open Scope Z_scope.

(** ** MD5 (RFC 1321), the digest behind [hashlib.md5] *)

Module MD5.

Definition w32 (x : Z) : Z := x mod 2 ^ 32.

Definition rotl (x n : Z) : Z :=
  w32 (Z.lor (Z.shiftl x n) (Z.shiftr x (32 - n))).

Definition not32 (x : Z) : Z := Z.lxor x (2 ^ 32 - 1).

(** floor(abs(sin(i + 1)) * 2^32) for i = 0 .. 63 *)
Definition K : list Z :=
  [ 3614090360; 3905402710; 606105819; 3250441966; 4118548399; 1200080426;
    2821735955; 4249261313; 1770035416; 2336552879; 4294925233; 2304563134;
    1804603682; 4254626195; 2792965006; 1236535329; 4129170786; 3225465664;
    643717713; 3921069994; 3593408605; 38016083; 3634488961; 3889429448;
    568446438; 3275163606; 4107603335; 1163531501; 2850285829; 4243563512;
    1735328473; 2368359562; 4294588738; 2272392833; 1839030562; 4259657740;
    2763975236; 1272893353; 4139469664; 3200236656; 681279174; 3936430074;
    3572445317; 76029189; 3654602809; 3873151461; 530742520; 3299628645;
    4096336452; 1126891415; 2878612391; 4237533241; 1700485571; 2399980690;
    4293915773; 2240044497; 1873313359; 4264355552; 2734768916; 1309151649;
    4149444226; 3174756917; 718787259; 3951481745 ].

Definition S : list Z :=
  [ 7; 12; 17; 22; 7; 12; 17; 22; 7; 12; 17; 22; 7; 12; 17; 22;
    5; 9; 14; 20; 5; 9; 14; 20; 5; 9; 14; 20; 5; 9; 14; 20;
    4; 11; 16; 23; 4; 11; 16; 23; 4; 11; 16; 23; 4; 11; 16; 23;
    6; 10; 15; 21; 6; 10; 15; 21; 6; 10; 15; 21; 6; 10; 15; 21 ].

Record state := mk_state { sa : Z; sb : Z; sc : Z; sd : Z }.

Definition init : state :=
  mk_state 0x67452301 0xefcdab89 0x98badcfe 0x10325476.

(** The non-linear function and the message index of round [i]. *)
Definition mix (i b c d : Z) : Z * Z :=
  if i <? 16 then (Z.lor (Z.land b c) (Z.land (not32 b) d), i)
  else if i <? 32 then
    (Z.lor (Z.land d b) (Z.land (not32 d) c), (5 * i + 1) mod 16)
  else if i <? 48 then (Z.lxor (Z.lxor b c) d, (3 * i + 5) mod 16)
  else (Z.lxor c (Z.lor b (not32 d)), (7 * i) mod 16).

Definition round (m : list Z) (st : state) (i : nat) : state :=
  let '(f, g) := mix (Z.of_nat i) (sb st) (sc st) (sd st) in
  let f' := w32 (f + sa st + nth i K 0 + nth (Z.to_nat g) m 0) in
  mk_state (sd st) (w32 (sb st + rotl f' (nth i S 0))) (sb st) (sc st).

(** Little-endian 32-bit words of a list of bytes. *)
Fixpoint words (bs : list Z) : list Z :=
  match bs with
  | b0 :: b1 :: b2 :: b3 :: rest =>
      (b0 + 2 ^ 8 * b1 + 2 ^ 16 * b2 + 2 ^ 24 * b3) :: words rest
  | _ => []
  end.

Definition le_bytes (n : nat) (x : Z) : list Z :=
  map (fun k => (x / 2 ^ (8 * Z.of_nat k)) mod 256) (seq 0 n).

Definition process_block (st : state) (block : list Z) : state :=
  let r := fold_left (round (words block)) (seq 0 64) st in
  mk_state (w32 (sa st + sa r)) (w32 (sb st + sb r))
           (w32 (sc st + sc r)) (w32 (sd st + sd r)).

Definition pad (msg : list Z) : list Z :=
  let len := Z.of_nat (length msg) in
  msg ++ [128] ++ repeat 0 (Z.to_nat ((55 - len) mod 64))
      ++ le_bytes 8 ((8 * len) mod 2 ^ 64).

Fixpoint blocks (fuel : nat) (bs : list Z) : list (list Z) :=
  match fuel, bs with
  | O, _ | _, [] => []
  | Datatypes.S fuel', _ => firstn 64 bs :: blocks fuel' (skipn 64 bs)
  end.

(** The 16 bytes of the digest. *)
Definition digest (msg : list Z) : list Z :=
  let p := pad msg in
  let st := fold_left process_block (blocks (length p) p) init in
  le_bytes 4 (sa st) ++ le_bytes 4 (sb st)
    ++ le_bytes 4 (sc st) ++ le_bytes 4 (sd st).

End MD5.

(** ** Strings, bytes and hexadecimal text *)

Definition encode_utf8 (s : string) : list Z :=
  map (fun c => Z.of_N (N_of_ascii c)) (list_ascii_of_string s).

Definition hex_digit (d : Z) : ascii :=
  if d <? 10 then ascii_of_N (Z.to_N (48 + d))
  else ascii_of_N (Z.to_N (87 + d)).

(** [hashlib]'s [hexdigest]: two lower-case digits per byte. *)
Definition hexdigest (bs : list Z) : string :=
  string_of_list_ascii
    (flat_map (fun b => [hex_digit (b / 16); hex_digit (b mod 16)]) bs).

Definition hex_value (c : ascii) : option Z :=
  let n := Z.of_N (N_of_ascii c) in
  if (48 <=? n) && (n <=? 57) then Some (n - 48)
  else if (97 <=? n) && (n <=? 102) then Some (n - 87)
  else if (65 <=? n) && (n <=? 70) then Some (n - 55)
  else None.

Definition hex_acc (acc : option Z) (c : ascii) : option Z :=
  match acc, hex_value c with
  | Some a, Some v => Some (16 * a + v)
  | _, _ => None
  end.

(** [int(s, 16)] on a string of hexadecimal digits; [None] is [ValueError]
    (signs, prefixes, blanks and underscores, which [int] also reads, do not
    occur in a digest). *)
Definition int16 (s : string) : option Z :=
  match list_ascii_of_string s with
  | [] => None
  | cs => fold_left hex_acc cs (Some 0)
  end.


(** ** Data model *)

(** One row of the song catalog ([pd.DataFrame.from_dict] of the JSON). *)
Record song_row := mk_song_row { Track_Name : string; Split : string }.

(** One entry of the listener catalog. *)
Record listener_data := mk_listener {
  audiogram_cfs : list Z;
  audiogram_levels_l : list Q;
  audiogram_levels_r : list Q
}.

(** Operands of pathlib's [/], outermost directory first. *)
Definition path := list string.

(** Sample formats [wavfile.read] decodes to. *)
Inductive dtype := UInt8 | Int16 | Int32 | Float32.

(** A decoded array: one-dimensional (mono file), or frames of [width]
    channels each. *)
Inductive ndarray :=
| Arr1 (samples : list Q)
| Arr2 (width : nat) (frames : list (list Q)).

Record signal := mk_signal { sig_dtype : dtype; sig_data : ndarray }.

(** Keyword arguments of the call to [haaqi_v1]. *)
Record metric_args := mk_metric_args {
  reference : signal;
  reference_freq : Z;
  processed : signal;
  processed_freq : Z;
  hearing_loss : list Q;
  equalisation : Z
}.

Record config := mk_config {
  music_dir : string;
  small_test : bool;
  set_random_seed : bool;
  nalr_fs : Z
}.

Inductive exn :=
| FileNotFoundError
| IndexError
| KeyError
| AssertionError
| ValueError
| MetricError.

(** The errors that come from the files, the arrays, the assertion and the
    metric. *)
Definition expected_error (e : exn) : Prop :=
  e = FileNotFoundError \/ e = IndexError \/ e = AssertionError
  \/ e = MetricError.

Inductive result (A : Type) :=
| Ok (a : A)
| Raise (e : exn).
Arguments Ok {A} a.
Arguments Raise {A} e.

(** What the run does that an observer can see, oldest first: the
    [logger.info] lines (by their format arguments) and the calls to
    [np.random.seed], [wavfile.read] and [haaqi_v1]. *)
Inductive event :=
| LogEvaluating (song listener : string)
| LogInstrument (instrument : string)
| LogCombined (score : float)
| EvSeed (seed : Z)
| EvRead (file : path)
| EvMetric (args : metric_args).

(** The seeds applied in a trace, in order. *)
Fixpoint seed_events (t : list event) : list Z :=
  match t with
  | [] => []
  | EvSeed n :: t' => n :: seed_events t'
  | _ :: t' => seed_events t'
  end.

(** Events of reading a file or calling the metric. *)
Definition quiet (e : event) : bool :=
  match e with
  | EvRead _ | EvMetric _ => true
  | _ => false
  end.

(** The metric calls of a trace, in order. *)
Fixpoint metric_calls (t : list event) : list metric_args :=
  match t with
  | [] => []
  | EvMetric args :: t' => args :: metric_calls t'
  | _ :: t' => metric_calls t'
  end.

(** The files read in a trace, in order. *)
Fixpoint read_events (t : list event) : list path :=
  match t with
  | [] => []
  | EvRead p :: t' => p :: read_events t'
  | _ :: t' => read_events t'
  end.

(** The combined scores logged in a trace, in order. *)
Fixpoint logged_scores (t : list event) : list float :=
  match t with
  | [] => []
  | LogCombined q :: t' => q :: logged_scores t'
  | _ :: t' => logged_scores t'
  end.

(** The metric calls made after the first log line that announces
    [instrument]. *)
Fixpoint metric_calls_for (instrument : string) (t : list event)
  : list metric_args :=
  match t with
  | [] => []
  | LogInstrument i :: t' =>
      if String.eqb i instrument then metric_calls t'
      else metric_calls_for instrument t'
  | _ :: t' => metric_calls_for instrument t'
  end.

(** ** Dictionaries in insertion order *)

Section Dict.
Context {V : Type}.

Definition dict := list (string * V).

Fixpoint dict_get (d : dict) (k : string) : option V :=
  match d with
  | [] => None
  | (k', v) :: d' => if String.eqb k' k then Some v else dict_get d' k
  end.

(** [d[k] = v]: an existing key keeps its position. *)
Fixpoint dict_set (d : dict) (k : string) (v : V) : dict :=
  match d with
  | [] => [(k, v)]
  | (k', v') :: d' =>
      if String.eqb k' k then (k', v) :: d' else (k', v') :: dict_set d' k v
  end.

Definition dict_keys (d : dict) : list string := map fst d.
Definition dict_values (d : dict) : list V := map snd d.
End Dict.
Arguments dict V : clear implicits.

(** ** Pair enumeration *)

(** [itertools.product(xs, ys)]: the rightmost iterable advances fastest. *)
Definition product {A B : Type} (xs : list A) (ys : list B) : list (A * B) :=
  flat_map (fun x => map (fun y => (x, y)) ys) xs.

(** [l[::step]] for a positive [step]. *)
Fixpoint stride_from {A : Type} (step skip : nat) (l : list A) : list A :=
  match l with
  | [] => []
  | x :: l' =>
      match skip with
      | O => x :: stride_from step (Nat.pred step) l'
      | S skip' => stride_from step skip' l'
      end
  end.

Definition stride {A : Type} (step : nat) (l : list A) : list A :=
  stride_from step 0 l.

Definition make_song_listener_list {V : Type}
    (songs : list string) (listeners : dict V) (small_test : bool)
  : list (string * string) :=
  let song_listener_pairs := product songs (dict_keys listeners) in
  if small_test then stride 15 song_listener_pairs else song_listener_pairs.

(** ** Seed of a song *)

(** The bytes of a digest read as one big-endian number. *)
Definition digest_value (bs : list Z) : Z :=
  fold_left (fun acc b => 256 * acc + b) bs 0.

(** [int(hashlib.md5(song.encode("utf-8")).hexdigest(), 16) % (10**8)];
    [None] when [int] rejects the text. *)
Definition song_md5 (song : string) : option Z :=
  let song_encoded := hexdigest (MD5.digest (encode_utf8 song)) in
  match int16 song_encoded with
  | Some n => Some (n mod 10 ^ 8)
  | None => None
  end.

(** The seed as the specification words it: the digest of the UTF-8 bytes,
    read as one integer, modulo 10^8. *)
Definition seed_of (song : string) : Z :=
  digest_value (MD5.digest (encode_utf8 song)) mod 10 ^ 8.

(** The events of a pair before its first instrument. *)
Definition pair_prologue (reseed : bool) (song listener : string)
  : list event :=
  LogEvaluating song listener
    :: (if reseed then [EvSeed (seed_of song)] else []).

(** ** Audiogram filter of [compute_haaqi] *)

Definition haaqi_audiogram_freq : list Z := [250; 500; 1000; 2000; 4000; 6000].

Definition freq_in (f : Z) (fs : list Z) : bool := existsb (Z.eqb f) fs.

(** The list comprehension: [i] runs over [range(len(audiogram_frequencies))],
    and [audiogram[i]] is only evaluated where the frequency is kept; an index
    past the end of [audiogram] is [IndexError]. *)
Fixpoint audiogram_adjusted_from {A : Type} (i : nat) (audiogram : list A)
    (audiogram_frequencies : list Z) : result (list A) :=
  match audiogram_frequencies with
  | [] => Ok []
  | f :: fs =>
      if freq_in f haaqi_audiogram_freq then
        match nth_error audiogram i with
        | None => Raise IndexError
        | Some a =>
            match audiogram_adjusted_from (S i) audiogram fs with
            | Ok l => Ok (a :: l)
            | Raise e => Raise e
            end
        end
      else audiogram_adjusted_from (S i) audiogram fs
  end.

Definition audiogram_adjusted {A : Type} (audiogram : list A)
    (audiogram_frequencies : list Z) : result (list A) :=
  audiogram_adjusted_from 0 audiogram audiogram_frequencies.

(** ** Amplitudes *)

(** Nearest integer, ties to even. *)
Definition round_half_even (q : Q) : Z :=
  let f := Qfloor q in
  match Qcompare (q - inject_Z f) (1 # 2) with
  | Lt => f
  | Gt => f + 1
  | Eq => if Z.even f then f else f + 1
  end.

(** [astype(np.float32)] of a finite value: nearest number with a 24-bit
    significand, ties to even.  The exponent range of the format is not
    modelled; the quotients by 32768 of 8, 16 and 32-bit samples lie well
    inside it. *)
Definition astype_float32 (q : Q) : Q :=
  if Qeq_bool q 0 then 0%Q
  else
    let a := Qabs q in
    let e0 := Z.log2 (Qnum a) - Z.log2 (Zpos (Qden a)) in
    let e := if Qle_bool (Qpower 2 e0) a then e0 else e0 - 1 in
    let ulp := Qpower 2 (e - 23) in
    (inject_Z (round_half_even (q / ulp)) * ulp)%Q.

(** [f] holds on the [n] integers from [hi] downwards. *)
Fixpoint check_down (f : Z -> bool) (n : nat) (hi : Z) : bool :=
  match n with
  | O => true
  | S n' => f hi && check_down f n' (hi - 1)
  end.

(** A 16-bit sample divided by 32768 is a float32 as it stands. *)
Definition exact_on_int16 (n : Z) : bool :=
  Qeq_bool (astype_float32 (inject_Z n / 32768)) (inject_Z n / 32768).

Definition ndarray_map (f : Q -> Q) (a : ndarray) : ndarray :=
  match a with
  | Arr1 l => Arr1 (map f l)
  | Arr2 w rows => Arr2 w (map (map f) rows)
  end.

(** [(reference_signal / 32768.0).astype(np.float32)] *)
Definition normalise_reference (a : ndarray) : signal :=
  mk_signal Float32 (ndarray_map (fun x => astype_float32 (x / 32768)) a).

(** [a[:, k]]: needs two dimensions and a column [k]. *)
Definition column (k : nat) (s : signal) : result signal :=
  match sig_data s with
  | Arr1 _ => Raise IndexError
  | Arr2 w rows =>
      if (k <? w)%nat
      then Ok (mk_signal (sig_dtype s) (Arr1 (map (fun r => nth k r 0%Q) rows)))
      else Raise IndexError
  end.

(** Channel [k] of the frames of a stem, each sample divided by 32768 and
    narrowed to float32; compared below with the reference the metric is
    called with. *)
Definition reference_channel (k : nat) (frames : list (list Q)) : signal :=
  mk_signal Float32
    (Arr1 (map (fun frame => astype_float32 (nth k frame 0%Q / 32768)) frames)).

(** Largest magnitude of a sample format (the unsigned 8-bit format is
    centred on 128). *)
Definition full_scale (t : dtype) : Q :=
  match t with
  | UInt8 => 128
  | Int16 => 32768
  | Int32 => 2147483648
  | Float32 => 1
  end.

(** Normalisation by the full scale of the source format, as the
    specification words it; compared below with [normalise_reference]. *)
Definition normalise_by_full_scale (s : signal) : signal :=
  mk_signal Float32
    (ndarray_map (fun x => astype_float32 (x / full_scale (sig_dtype s)))
       (sig_data s)).

(** ** The mean of the scores *)

(** [np.mean] of a list of Python floats: the list becomes a contiguous
    array of binary64 numbers, [np.add.reduce] sums it and the sum is divided
    by the number of items.  The sum is NumPy's pairwise summation: *)

(** fewer than 8 items are added from left to right, starting from 0; *)
Definition sum_loop (res : float) (a : list float) : float :=
  fold_left PrimFloat.add a res.

(** [r[j] += a[i + j]] for j = 0 .. 7; *)
Fixpoint add_into (r a : list float) : list float :=
  match r, a with
  | x :: r', y :: a' => (x + y)%float :: add_into r' a'
  | _, _ => r
  end.

(** up to 128 items are added into 8 accumulators, block of 8 after block
    of 8; [blocks] is the number of full blocks left; *)
Fixpoint accumulate (blocks : nat) (r a : list float)
  : list float * list float :=
  match blocks with
  | O => (r, a)
  | S blocks' => accumulate blocks' (add_into r (firstn 8 a)) (skipn 8 a)
  end.

(** [((r[0] + r[1]) + (r[2] + r[3])) + ((r[4] + r[5]) + (r[6] + r[7]))] *)
Definition add_accumulators (r : list float) : float :=
  let r_ j := nth j r 0%float in
  (((r_ 0%nat + r_ 1%nat) + (r_ 2%nat + r_ 3%nat))
   + ((r_ 4%nat + r_ 5%nat) + (r_ 6%nat + r_ 7%nat)))%float.

(** the accumulators are added as a tree and the items after the last full
    block one by one; *)
Definition sum_unrolled (a : list float) : float :=
  let n := length a in
  let '(r, rest) := accumulate (n / 8 - 1) (firstn 8 a) (skipn 8 a) in
  sum_loop (add_accumulators r) rest.

(** more than 128 items are split in two parts, the first of a multiple of
    8 items, and the sums of the parts added ([fuel], the number of items,
    is never used up: a part is at most a little over half the whole). *)
Fixpoint pairwise_sum_from (fuel : nat) (a : list float) : float :=
  let n := length a in
  if (n <? 8)%nat then sum_loop 0%float a
  else if (n <=? 128)%nat then sum_unrolled a
  else
    match fuel with
    | O => sum_unrolled a
    | S fuel' =>
        let n2 := (n / 2)%nat in
        let n2 := (n2 - n2 mod 8)%nat in
        (pairwise_sum_from fuel' (firstn n2 a)
         + pairwise_sum_from fuel' (skipn n2 a))%float
    end.

Definition pairwise_sum (a : list float) : float :=
  pairwise_sum_from (length a) a.

(** The reduction starts from 0.0, the identity of [np.add], and adds the
    pairwise sum of the whole array to it. *)
Definition np_sum (a : list float) : float :=
  (0 + pairwise_sum a)%float.

(** The number of items as a float. *)
Definition float_of_len (a : list float) : float :=
  PrimFloat.of_uint63 (Uint63.of_Z (Z.of_nat (length a))).

(** [np.mean(a)]: the sum divided by the number of items (for an empty list
    0.0 / 0.0, a NaN). *)
Definition np_mean (a : list float) : float :=
  (np_sum a / float_of_len a)%float.

(** ** The results file *)

Definition dquote : ascii := "034"%char.
Definition comma : ascii := ","%char.
Definition CR : ascii := "013"%char.
Definition LF : ascii := "010"%char.

Definition csv_special (c : ascii) : bool :=
  Ascii.eqb c comma || Ascii.eqb c dquote || Ascii.eqb c CR || Ascii.eqb c LF.

(** A quote character inside a quoted field is doubled. *)
Definition escape (c : ascii) : list ascii :=
  if Ascii.eqb c dquote then [dquote; dquote] else [c].

(** A field under [QUOTE_MINIMAL] with the comma as delimiter, the double
    quote as quote character and the default line terminator CR LF: quoted
    when it holds one of these. *)
Definition csv_field (f : string) : list ascii :=
  let cs := list_ascii_of_string f in
  if existsb csv_special cs
  then dquote :: flat_map escape cs ++ [dquote]
  else cs.

Fixpoint csv_join (fields : list (list ascii)) : list ascii :=
  match fields with
  | [] => []
  | [f] => f
  | f :: rest => f ++ comma :: csv_join rest
  end.

(** [csv_writer.writerow(fields)]; a row of one empty field is written as an
    empty quoted field. *)
Definition csv_writerow (fields : list string) : list ascii :=
  match fields with
  | [EmptyString] => [dquote; dquote; CR; LF]
  | _ => csv_join (map csv_field fields) ++ [CR; LF]
  end.

Definition header_row : list string :=
  [ "song"; "listener"; "score"; "left_bass"; "right_bass"; "left_drums";
    "right_drums"; "left_other"; "right_other"; "left_vocals";
    "right_vocals" ]%string.

(** The arguments of one call to [add_result]. *)
Record result_record := mk_result_record {
  rec_listener : string;
  rec_song : string;
  rec_score : float;
  rec_scores : dict float
}.

(** The keys [add_result] looks up, in the order of their columns. *)
Definition score_keys : list string :=
  [ "left_bass"; "right_bass"; "left_drums"; "right_drums"; "left_other";
    "right_other"; "left_vocals"; "right_vocals" ]%string.


(** Files by name; [None] is a file that does not exist. *)
Definition filesystem := string -> option (list ascii).

Definition fs_write (fs : filesystem) (name : string) (content : list ascii)
  : filesystem :=
  fun n => if String.eqb n name then Some content else fs n.

(** What is in a file, a missing file read as empty. *)
Definition content (fs : filesystem) (name : string) : list ascii :=
  match fs name with
  | Some text => text
  | None => []
  end.

(** [open(name, "a")] then write: creates the file when it is missing. *)
Definition fs_append (fs : filesystem) (name : string) (text : list ascii)
  : filesystem :=
  fs_write fs name (content fs name ++ text).

(** *** Reading the file back

    The reader of the [csv] module for the dialect the script writes with
    (comma, double quote, doubled quotes inside quoted fields, not strict),
    on a file opened with [newline=""]: the text is cut into lines after a
    line feed, a carriage return and line feed, or a lone carriage return,
    the characters of each line are fed to the state machine, then an end
    of line. *)

Inductive reader_state :=
| START_RECORD
| START_FIELD
| IN_FIELD
| IN_QUOTED_FIELD
| QUOTE_IN_QUOTED_FIELD
| EAT_CRNL.

Record reader := mk_reader {
  rd_state : reader_state;
  rd_field : list ascii;
  rd_fields : list string;
  rd_rows : list (list string)
}.

Definition add_char (c : ascii) (st : reader_state) (r : reader) : reader :=
  mk_reader st (rd_field r ++ [c]) (rd_fields r) (rd_rows r).

Definition save_field (st : reader_state) (r : reader) : reader :=
  mk_reader st [] (rd_fields r ++ [string_of_list_ascii (rd_field r)]) (rd_rows r).

Definition set_state (st : reader_state) (r : reader) : reader :=
  mk_reader st (rd_field r) (rd_fields r) (rd_rows r).

Definition is_newline (c : ascii) : bool := Ascii.eqb c CR || Ascii.eqb c LF.

Definition field_start (c : ascii) (r : reader) : reader :=
  if is_newline c then save_field EAT_CRNL r
  else if Ascii.eqb c dquote then set_state IN_QUOTED_FIELD r
  else if Ascii.eqb c comma then save_field START_FIELD r
  else add_char c IN_FIELD r.

(** One character; [None] is a line that was not read with [newline=""]. *)
Definition reader_char (c : ascii) (r : reader) : option reader :=
  match rd_state r with
  | START_RECORD =>
      if is_newline c then Some (set_state EAT_CRNL r)
      else Some (field_start c r)
  | START_FIELD => Some (field_start c r)
  | IN_FIELD =>
      if is_newline c then Some (save_field EAT_CRNL r)
      else if Ascii.eqb c comma then Some (save_field START_FIELD r)
      else Some (add_char c IN_FIELD r)
  | IN_QUOTED_FIELD =>
      if Ascii.eqb c dquote then Some (set_state QUOTE_IN_QUOTED_FIELD r)
      else Some (add_char c IN_QUOTED_FIELD r)
  | QUOTE_IN_QUOTED_FIELD =>
      if Ascii.eqb c dquote then Some (add_char c IN_QUOTED_FIELD r)
      else if Ascii.eqb c comma then Some (save_field START_FIELD r)
      else if is_newline c then Some (save_field EAT_CRNL r)
      else Some (add_char c IN_FIELD r)
  | EAT_CRNL => if is_newline c then Some r else None
  end.

(** End of a line; a record is complete when the machine is back at the
    start of a record. *)
Definition reader_eol (r : reader) : reader :=
  match rd_state r with
  | IN_QUOTED_FIELD => r
  | START_RECORD | EAT_CRNL =>
      mk_reader START_RECORD [] [] (rd_rows r ++ [rd_fields r])
  | START_FIELD | IN_FIELD | QUOTE_IN_QUOTED_FIELD =>
      mk_reader START_RECORD [] []
        (rd_rows r ++ [rd_fields r ++ [string_of_list_ascii (rd_field r)]])
  end.

(** Whether a line ends after [c], the text going on with [rest]. *)
Definition line_ends (c : ascii) (rest : list ascii) : bool :=
  match rest with
  | [] => true
  | d :: _ => Ascii.eqb c LF || (Ascii.eqb c CR && negb (Ascii.eqb d LF))
  end.

Fixpoint reader_feed (text : list ascii) (r : reader) : option reader :=
  match text with
  | [] => Some r
  | c :: rest =>
      match reader_char c r with
      | None => None
      | Some r' =>
          reader_feed rest (if line_ends c rest then reader_eol r' else r')
      end
  end.

(** All the rows of a text; input that ends inside a quoted field gives a
    last row with what was read of it. *)
Definition csv_read (text : list ascii) : option (list (list string)) :=
  match reader_feed text (mk_reader START_RECORD [] [] []) with
  | None => None
  | Some r =>
      match rd_state r with
      | IN_QUOTED_FIELD =>
          Some (rd_rows r ++ [rd_fields r ++ [string_of_list_ascii (rd_field r)]])
      | _ => Some (rd_rows r)
      end
  end.

(** ** Stand-ins for the libraries, to run the script on concrete data *)

Module Demo.

(** The generator state is the last seed and the number of draws since. *)
Definition rng : Type := Z * nat.
Definition mt_seed (n : Z) : rng := (n, O).

(** A metric that scores every call 1 and draws once. *)
Definition haaqi_v1 (args : metric_args) (g : rng) : option float * rng :=
  (Some 1%float, (fst g, S (snd g))).

(** A metric that scores the n-th call since the generator was seeded n. *)
Definition haaqi_counting (args : metric_args) (g : rng)
  : option float * rng :=
  (Some (PrimFloat.of_uint63 (Uint63.of_Z (Z.of_nat (S (snd g))))),
   (fst g, S (snd g))).

Definition stereo : signal :=
  mk_signal Int16 (Arr2 2 [[16384%Q; (-8192)%Q]; [0%Q; 32767%Q]]).
Definition mono : signal := mk_signal Int16 (Arr1 [16384%Q; 0%Q]).

(** Every enhanced file is [mono] and every other file [stereo], all at
    44100 Hz. *)
Definition wavfile_read (p : path) : option (Z * signal) :=
  match p with
  | dir :: _ =>
      if String.eqb dir "enhanced_signals" then Some (44100, mono)
      else Some (44100, stereo)
  | [] => None
  end.

(** The number a finite float stands for. *)
Definition float_value (s : bool) (m : positive) (e : Z) : Q :=
  ((if s then -1 else 1) * inject_Z (Zpos m) * Qpower 2 e)%Q.

(** A float as text: numerator and denominator of its value in lowest
    terms. *)
Definition str_float (x : float) : string :=
  match Prim2SF x with
  | S754_zero s => if s then "-0/1" else "0/1"
  | S754_infinity s => if s then "-inf" else "inf"
  | S754_nan => "nan"
  | S754_finite s m e =>
      let r := Qred (float_value s m e) in
      NilEmpty.string_of_int (Z.to_int (Qnum r)) ++ "/"
        ++ NilEmpty.string_of_uint (Pos.to_uint (Qden r))
  end%string.

Definition no_files : filesystem := fun _ => None.

(** A reference stem of 32-bit samples. *)
Definition stereo32 : signal :=
  mk_signal Int32 (Arr2 2 [[1073741824%Q; 0%Q]]).

Definition wavfile_read32 (p : path) : option (Z * signal) :=
  match p with
  | dir :: _ =>
      if String.eqb dir "enhanced_signals" then Some (44100, mono)
      else Some (44100, stereo32)
  | [] => None
  end.

Definition cfg : config := mk_config "music" false true 44100.

(** The same, expecting 48000 Hz. *)
Definition cfg48 : config := mk_config "music" false true 48000.

(** The same, without reseeding. *)
Definition cfg_no_seed : config := mk_config "music" false false 44100.

(** No audio file can be read. *)
Definition no_wav (p : path) : option (Z * signal) := None.

Definition songs : list song_row := [mk_song_row "song1" "train"].

Definition listeners : dict listener_data :=
  [ ("L1"%string,
     mk_listener [125; 250; 500; 1000; 2000; 4000; 6000; 8000]
       [10; 15; 20; 25; 30; 35; 40; 45]%Q [5; 10; 15; 20; 25; 30; 35; 40]%Q);
    ("L2"%string,
     mk_listener [250; 500; 1000; 2000; 4000; 6000]
       [0; 0; 10; 20; 30; 40]%Q [0; 0; 10; 20; 30; 40]%Q) ].

Definition scores : dict float :=
  [ ("left_drums", 1); ("right_drums", 2); ("left_bass", 3);
    ("right_bass", 4); ("left_other", 5); ("right_other", 6);
    ("left_vocals", 7); ("right_vocals", 8) ]%string%float.

(** Two records; the song of the first needs quoting. *)
Definition records : list result_record :=
  [ mk_result_record "L1" "Night, Day" 4.5%float scores;
    mk_result_record "L2" "song1" 4.5%float scores ].

End Demo.

(** ** The script *)

Section Harness.

(** State of NumPy's global generator, and the state [np.random.seed]
    installs for a seed. *)
Variable rng : Type.
Variable mt_seed : Z -> rng.

(** [haaqi_v1]: the score (first component of its result), or [None] when
    it raises; it may draw from the global generator. *)
Variable haaqi_v1 : metric_args -> rng -> option float * rng.

(** [wavfile.read]: sample rate and decoded samples, or [None] when the
    file cannot be read. *)
Variable wavfile_read : path -> option (Z * signal).

(** [str] of a float. *)
Variable str_float : float -> string.

Record world := mk_world {
  files : filesystem;
  np_random : rng;
  trace : list event
}.

(** The world with no file and an empty trace around a generator state. *)
Definition bare (g : rng) : world := mk_world (fun _ => None) g [].

Definition M (A : Type) : Type := world -> result A * world.

Definition ret {A : Type} (a : A) : M A := fun w => (Ok a, w).

Definition raise {A : Type} (e : exn) : M A := fun w => (Raise e, w).

Definition bind {A B : Type} (m : M A) (k : A -> M B) : M B :=
  fun w =>
    match m w with
    | (Ok a, w') => k a w'
    | (Raise e, w') => (Raise e, w')
    end.

Notation "x <- m ;; k" := (bind m (fun x => k))
  (at level 61, m at next level, right associativity).
Notation "m ;;; k" := (bind m (fun _ => k))
  (at level 61, right associativity).

Definition lift {A : Type} (r : result A) : M A := fun w => (r, w).

Definition emit (e : event) : M unit :=
  fun w => (Ok tt, mk_world (files w) (np_random w) (trace w ++ [e])).

Definition update_files (f : filesystem -> filesystem) : M unit :=
  fun w => (Ok tt, mk_world (f (files w)) (np_random w) (trace w)).

Definition from_option {A : Type} (e : exn) (o : option A) : M A :=
  match o with
  | Some a => ret a
  | None => raise e
  end.

(** *** [ResultsFile] *)

Record ResultsFile := mk_ResultsFile { file_name : string }.

Definition write_header (self : ResultsFile) : M unit :=
  update_files (fun fs => fs_write fs (file_name self) (csv_writerow header_row)).

(** The file is opened for appending (and so created) before the row is
    built; a missing key raises inside the [with] block. *)
Definition add_result (self : ResultsFile) (listener song : string)
    (score : float) (instruments_scores : dict float) : M unit :=
  emit (LogCombined score) ;;;
  update_files (fun fs => fs_append fs (file_name self) []) ;;;
  let get k := from_option KeyError (dict_get instruments_scores k) in
  left_bass <- get "left_bass"%string ;;
  right_bass <- get "right_bass"%string ;;
  left_drums <- get "left_drums"%string ;;
  right_drums <- get "right_drums"%string ;;
  left_other <- get "left_other"%string ;;
  right_other <- get "right_other"%string ;;
  left_vocals <- get "left_vocals"%string ;;
  right_vocals <- get "right_vocals"%string ;;
  update_files (fun fs =>
    fs_append fs (file_name self)
      (csv_writerow
         [ song; listener; str_float score;
           str_float left_bass; str_float right_bass;
           str_float left_drums; str_float right_drums;
           str_float left_other; str_float right_other;
           str_float left_vocals; str_float right_vocals ])).

(** The row of a record: song, listener, score, then the 8 scores. *)
Definition row_of (r : result_record) : list string :=
  [rec_song r; rec_listener r; str_float (rec_score r)]
    ++ map (fun k =>
              str_float
                (match dict_get (rec_scores r) k with
                 | Some v => v
                 | None => 0%float
                 end))
         score_keys.

(** One call to [add_result] per record, in order. *)
Fixpoint add_results (self : ResultsFile) (records : list result_record)
  : M unit :=
  match records with
  | [] => ret tt
  | r :: records' =>
      add_result self (rec_listener r) (rec_song r) (rec_score r)
        (rec_scores r) ;;;
      add_results self records'
  end.

(** *** [compute_haaqi] *)

Definition call_haaqi_v1 (args : metric_args) : M float :=
  emit (EvMetric args) ;;;
  fun w =>
    match haaqi_v1 args (np_random w) with
    | (Some score, g) => (Ok score, mk_world (files w) g (trace w))
    | (None, g) => (Raise MetricError, mk_world (files w) g (trace w))
    end.

Definition compute_haaqi (enh_signal ref_signal : signal)
    (audiogram : list Q) (audiogram_frequencies : list Z) (fs_signal : Z)
  : M float :=
  adjusted <- lift (audiogram_adjusted audiogram audiogram_frequencies) ;;
  call_haaqi_v1
    (mk_metric_args ref_signal fs_signal enh_signal fs_signal adjusted 1).

(** *** [set_song_seed] *)

(** [np.random.seed(n)] accepts 0 <= n < 2^32. *)
Definition np_random_seed (n : Z) : M unit :=
  if (0 <=? n) && (n <? 2 ^ 32)
  then emit (EvSeed n) ;;;
       fun w => (Ok tt, mk_world (files w) (mt_seed n) (trace w))
  else raise ValueError.

Definition set_song_seed (song : string) : M unit :=
  n <- from_option ValueError (song_md5 song) ;;
  np_random_seed n.

(** *** [run_calculate_aq] *)

Definition enhanced_folder : path := ["enhanced_signals"%string].

Definition instruments : list string :=
  ["drums"; "bass"; "other"; "vocals"]%string.

(** [songs[songs["Track Name"] == song]["Split"].tolist()[0]] *)
Definition song_split (songs : list song_row) (song : string) : result string :=
  match map Split (filter (fun r => String.eqb (Track_Name r) song) songs) with
  | [] => Raise IndexError
  | s :: _ => Ok s
  end.

Definition reference_path (cfg : config) (split_dir song instrument : string)
  : path :=
  [music_dir cfg; split_dir; song; (instrument ++ ".wav")%string].

Definition enhanced_path (listener song channel instrument : string) : path :=
  enhanced_folder
    ++ [(listener ++ "_" ++ song ++ "_" ++ channel ++ "_" ++ instrument
         ++ ".wav")%string].

Definition py_assert (b : bool) : M unit :=
  if b then ret tt else raise AssertionError.

Definition read_wav (p : path) : M (Z * signal) :=
  emit (EvRead p) ;;; from_option FileNotFoundError (wavfile_read p).

Definition split_dir_of (split : string) : string :=
  if String.eqb split "test" then "test"%string else "train"%string.

(** The three files of an instrument, in the order they are read. *)
Definition files_of (cfg : config) (split song listener : string)
    (i : string) : list path :=
  [ reference_path cfg (split_dir_of split) song i;
    enhanced_path listener song "left" i;
    enhanced_path listener song "right" i ].

(** Body of the loop over instruments. *)
Definition eval_instrument (cfg : config) (songs : list song_row)
    (listener_audiograms : dict listener_data) (song listener : string)
    (scores : dict float) (instrument : string) : M (dict float) :=
  emit (LogInstrument instrument) ;;;
  split <- lift (song_split songs song) ;;
  let split_dir := split_dir_of split in
  ref <- read_wav (reference_path cfg split_dir song instrument) ;;
  let '(sample_rate_reference_signal, reference_signal) := ref in
  let reference_signal := normalise_reference (sig_data reference_signal) in
  left_reference_signal <- lift (column 0 reference_signal) ;;
  right_reference_signal <- lift (column 1 reference_signal) ;;
  l <- read_wav (enhanced_path listener song "left" instrument) ;;
  let '(sample_rate_left_enhanced_signal, left_enhanced_signal) := l in
  r <- read_wav (enhanced_path listener song "right" instrument) ;;
  let '(sample_rate_right_enhanced_signal, right_enhanced_signal) := r in
  py_assert
    ((sample_rate_reference_signal =? sample_rate_left_enhanced_signal)
     && (sample_rate_left_enhanced_signal =? sample_rate_right_enhanced_signal)
     && (sample_rate_right_enhanced_signal =? nalr_fs cfg)) ;;;
  a <- from_option KeyError (dict_get listener_audiograms listener) ;;
  left_score <- compute_haaqi left_enhanced_signal left_reference_signal
                  (audiogram_levels_l a) (audiogram_cfs a) (nalr_fs cfg) ;;
  let scores := dict_set scores ("left_" ++ instrument)%string left_score in
  a <- from_option KeyError (dict_get listener_audiograms listener) ;;
  right_score <- compute_haaqi right_enhanced_signal right_reference_signal
                   (audiogram_levels_r a) (audiogram_cfs a) (nalr_fs cfg) ;;
  ret (dict_set scores ("right_" ++ instrument)%string right_score).

Fixpoint for_instruments (cfg : config) (songs : list song_row)
    (listener_audiograms : dict listener_data) (song listener : string)
    (todo : list string) (scores : dict float) : M (dict float) :=
  match todo with
  | [] => ret scores
  | instrument :: todo' =>
      scores' <- eval_instrument cfg songs listener_audiograms song listener
                   scores instrument ;;
      for_instruments cfg songs listener_audiograms song listener todo' scores'
  end.

(** Body of the loop over pairs. *)
Definition eval_pair (cfg : config) (songs : list song_row)
    (listener_audiograms : dict listener_data) (results_file : ResultsFile)
    (song_listener : string * string) : M unit :=
  let '(song, listener) := song_listener in
  emit (LogEvaluating song listener) ;;;
  (if set_random_seed cfg then set_song_seed song else ret tt) ;;;
  scores <- for_instruments cfg songs listener_audiograms song listener
              instruments [] ;;
  let combined_score := np_mean (dict_values scores) in
  add_result results_file listener song combined_score scores.

Fixpoint for_pairs (cfg : config) (songs : list song_row)
    (listener_audiograms : dict listener_data) (results_file : ResultsFile)
    (pairs : list (string * string)) : M unit :=
  match pairs with
  | [] => ret tt
  | song_listener :: pairs' =>
      eval_pair cfg songs listener_audiograms results_file song_listener ;;;
      for_pairs cfg songs listener_audiograms results_file pairs'
  end.

(** [songs["Track Name"].tolist()]: the frame made from a catalog without
    rows has no column, and the lookup of one raises. *)
Definition track_names (songs : list song_row) : result (list string) :=
  match songs with
  | [] => Raise KeyError
  | _ :: _ => Ok (map Track_Name songs)
  end.

(** The catalogs are taken as parsed ([json.load]): the songs as the rows
    [pd.DataFrame.from_dict] makes of them.  The header is written before
    the column of track names is looked up. *)
Definition run_calculate_aq (cfg : config) (songs : list song_row)
    (listener_audiograms : dict listener_data) : M unit :=
  let results_file := mk_ResultsFile "scores.csv" in
  write_header results_file ;;;
  names <- lift (track_names songs) ;;
  let song_listener_pair :=
    make_song_listener_list names listener_audiograms (small_test cfg) in
  for_pairs cfg songs listener_audiograms results_file song_listener_pair.

(** ** Properties *)

(** *** Hexadecimal text *)

Lemma hex_value_hex_digit (d : Z) :
  0 <= d < 16 -> hex_value (hex_digit d) = Some d.
Proof.
  intros H.
  assert (d = 0 \/ d = 1 \/ d = 2 \/ d = 3 \/ d = 4 \/ d = 5 \/ d = 6 \/ d = 7
          \/ d = 8 \/ d = 9 \/ d = 10 \/ d = 11 \/ d = 12 \/ d = 13
          \/ d = 14 \/ d = 15) as Hd by lia.
  repeat (destruct Hd as [-> | Hd]; [reflexivity |]).
  subst d. reflexivity.
Qed.

Lemma hex_fold_bytes (bs : list Z) :
  Forall (fun b => 0 <= b < 256) bs ->
  forall acc,
    fold_left hex_acc
      (flat_map (fun b => [hex_digit (b / 16); hex_digit (b mod 16)]) bs)
      (Some acc)
    = Some (fold_left (fun a b => 256 * a + b) bs acc).
Proof.
  induction 1 as [| b bs Hb _ IH]; intros acc; [reflexivity |].
  cbn [flat_map app fold_left]. unfold hex_acc at 2 3.
  rewrite !hex_value_hex_digit.
  - rewrite IH. do 2 f_equal.
    pose proof (Z.div_mod b 16 ltac:(lia)). lia.
  - apply Z.mod_pos_bound; lia.
  - split; [apply Z.div_pos; lia | apply Z.div_lt_upper_bound; lia].
Qed.

Lemma int16_hexdigest (bs : list Z) :
  Forall (fun b => 0 <= b < 256) bs -> bs <> [] ->
  int16 (hexdigest bs) = Some (digest_value bs).
Proof.
  intros Hbs Hne. unfold int16, hexdigest.
  rewrite list_ascii_of_string_of_list_ascii.
  destruct bs as [| b bs]; [congruence |].
  change (fold_left hex_acc
            (flat_map (fun b => [hex_digit (b / 16); hex_digit (b mod 16)])
               (b :: bs)) (Some 0) = Some (digest_value (b :: bs))).
  now rewrite hex_fold_bytes.
Qed.

Lemma le_bytes_range (n : nat) (x : Z) :
  Forall (fun b => 0 <= b < 256) (MD5.le_bytes n x).
Proof.
  unfold MD5.le_bytes. apply Forall_forall. intros b Hb.
  apply in_map_iff in Hb as (k & <- & _). apply Z.mod_pos_bound; lia.
Qed.

Lemma digest_bytes (msg : list Z) :
  Forall (fun b => 0 <= b < 256) (MD5.digest msg)
  /\ length (MD5.digest msg) = 16%nat.
Proof.
  unfold MD5.digest. split.
  - repeat (apply Forall_app; split); apply le_bytes_range.
  - reflexivity.
Qed.

(** *** The seed of a song *)

Lemma np_random_seed_run (n : Z) (w : world) :
  0 <= n < 2 ^ 32 ->
  np_random_seed n w
  = (Ok tt, mk_world (files w) (mt_seed n) (trace w ++ [EvSeed n])).
Proof.
  intros Hn. unfold np_random_seed.
  replace ((0 <=? n) && (n <? 2 ^ 32)) with true; [reflexivity |].
  symmetry. apply andb_true_iff. split; [apply Z.leb_le | apply Z.ltb_lt]; lia.
Qed.

Lemma song_md5_seed_of (song : string) :
  song_md5 song = Some (seed_of song).
Proof.
  unfold song_md5, seed_of.
  destruct (digest_bytes (encode_utf8 song)) as [Hb Hl].
  rewrite int16_hexdigest; [reflexivity | assumption |].
  intros E. rewrite E in Hl. discriminate.
Qed.

Lemma seed_of_range (song : string) : 0 <= seed_of song < 10 ^ 8.
Proof. unfold seed_of. apply Z.mod_pos_bound. lia. Qed.

Lemma set_song_seed_run (song : string) (w : world) :
  set_song_seed song w
  = (Ok tt,
     mk_world (files w) (mt_seed (seed_of song))
       (trace w ++ [EvSeed (seed_of song)])).
Proof.
  unfold set_song_seed, bind, from_option. rewrite song_md5_seed_of.
  cbn [ret]. apply np_random_seed_run.
  pose proof (seed_of_range song). lia.
Qed.

(** C1. For every song identifier, [set_song_seed] is a function of the
    identifier alone: the seed is the MD5 digest of the UTF-8 bytes, read
    as one integer, modulo 10^8; it lies in [0, 10^8); the call never
    raises, and whatever the state before, it installs the generator
    state of that seed (so two calls with the same song install the
    same seed). *)
Theorem set_song_seed_deterministic (song : string) :
  let n := seed_of song in
  n = digest_value (MD5.digest (encode_utf8 song)) mod 10 ^ 8
  /\ song_md5 song = Some n
  /\ 0 <= n < 10 ^ 8
  /\ (forall w,
        set_song_seed song w
        = (Ok tt, mk_world (files w) (mt_seed n) (trace w ++ [EvSeed n])))
  /\ (forall w1 w2,
        np_random (snd (set_song_seed song w1))
        = np_random (snd (set_song_seed song w2))).
Proof.
  cbv zeta.
  split; [reflexivity |].
  split; [apply song_md5_seed_of |].
  split; [apply seed_of_range |].
  split.
  - intros w. apply set_song_seed_run.
  - intros w1 w2. rewrite !set_song_seed_run. reflexivity.
Qed.

(** *** The audiogram filter *)

Lemma freq_in_canonical (f : Z) :
  freq_in f haaqi_audiogram_freq = true
  <-> In f [250; 500; 1000; 2000; 4000; 6000].
Proof.
  unfold freq_in, haaqi_audiogram_freq. rewrite existsb_exists. split.
  - intros (x & Hx & E). apply Z.eqb_eq in E. now subst.
  - intros H. exists f. split; [assumption | apply Z.eqb_refl].
Qed.

Lemma audiogram_adjusted_from_spec {A : Type} (fs : list Z) :
  forall (seen rest : list A),
    length rest = length fs ->
    audiogram_adjusted_from (length seen) (seen ++ rest) fs
    = Ok (map snd
            (filter (fun p => freq_in (fst p) haaqi_audiogram_freq)
               (combine fs rest))).
Proof.
  induction fs as [| f fs IH]; intros seen rest Hlen.
  - reflexivity.
  - destruct rest as [| a rest]; [discriminate |].
    injection Hlen as Hlen.
    assert (Hnext : audiogram_adjusted_from (S (length seen))
                      (seen ++ a :: rest) fs
                    = Ok (map snd
                            (filter
                               (fun p => freq_in (fst p) haaqi_audiogram_freq)
                               (combine fs rest)))).
    { specialize (IH (seen ++ [a]) rest Hlen).
      rewrite <- app_assoc, length_app in IH. cbn in IH.
      now rewrite Nat.add_1_r in IH. }
    cbn [audiogram_adjusted_from combine filter fst].
    destruct (freq_in f haaqi_audiogram_freq).
    + rewrite nth_error_app2, Nat.sub_diag by lia. cbn [nth_error].
      now rewrite Hnext.
    + exact Hnext.
Qed.

(** C2. With as many loss levels as frequencies, the filter of
    [compute_haaqi] returns the levels at the positions whose frequency is
    one of 250, 500, 1000, 2000, 4000, 6000 Hz, in the order of the
    listener's frequencies; on 125 ... 8000 Hz with levels a ... h it
    returns b ... g. *)
Theorem audiogram_filter_canonical (A : Type) :
  (forall (freqs : list Z) (levels : list A),
      length levels = length freqs ->
      audiogram_adjusted levels freqs
      = Ok (map snd
              (filter (fun p => freq_in (fst p) haaqi_audiogram_freq)
                 (combine freqs levels))))
  /\ (forall f, freq_in f haaqi_audiogram_freq = true
                <-> In f [250; 500; 1000; 2000; 4000; 6000])
  /\ (forall a b c d e f g h : A,
        audiogram_adjusted [a; b; c; d; e; f; g; h]
          [125; 250; 500; 1000; 2000; 4000; 6000; 8000]
        = Ok [b; c; d; e; f; g]).
Proof.
  split; [| split].
  - intros freqs levels Hlen.
    exact (audiogram_adjusted_from_spec freqs [] levels Hlen).
  - exact freq_in_canonical.
  - reflexivity.
Qed.

(** *** The list of pairs *)

Lemma product_length {A B : Type} (xs : list A) (ys : list B) :
  length (product xs ys) = (length xs * length ys)%nat.
Proof.
  unfold product. induction xs as [| x xs IH]; [reflexivity |].
  cbn [flat_map]. rewrite length_app, length_map, IH. reflexivity.
Qed.

Lemma product_nth_error {A B : Type} (xs : list A) (ys : list B) :
  forall i j x y,
    nth_error xs i = Some x -> nth_error ys j = Some y ->
    nth_error (product xs ys) (i * length ys + j) = Some (x, y).
Proof.
  unfold product. induction xs as [| x0 xs IH]; intros i j x y Hx Hy.
  - destruct i; discriminate.
  - cbn [flat_map]. destruct i as [| i].
    + injection Hx as ->. cbn [Nat.mul Nat.add].
      rewrite nth_error_app1.
      * now apply map_nth_error.
      * rewrite length_map. apply nth_error_Some. congruence.
    + cbn [nth_error] in Hx.
      rewrite nth_error_app2 by (rewrite length_map; cbn; lia).
      rewrite length_map.
      replace (S i * length ys + j - length ys)%nat
        with (i * length ys + j)%nat by (cbn; lia).
      now apply IH.
Qed.

Lemma stride_from_nth_error {A : Type} (step : nat) (l : list A) :
  (0 < step)%nat ->
  forall skip k,
    nth_error (stride_from step skip l) k = nth_error l (skip + step * k).
Proof.
  intros Hstep. induction l as [| x l IH]; intros skip k.
  - cbn [stride_from]. generalize (skip + step * k)%nat. intros n.
    now destruct k, n.
  - cbn [stride_from]. destruct skip as [| skip].
    + destruct k as [| k].
      * now rewrite Nat.mul_0_r.
      * cbn [nth_error]. rewrite IH.
        replace (0 + step * S k)%nat
          with (S (Nat.pred step + step * k)) by lia.
        reflexivity.
    + rewrite IH. reflexivity.
Qed.

Lemma stride_from_length {A : Type} (step : nat) (l : list A) :
  forall skip,
    (skip < step)%nat ->
    length (stride_from step skip l)
    = ((length l + (step - 1 - skip)) / step)%nat.
Proof.
  induction l as [| x l IH]; intros skip Hskip.
  - cbn. symmetry. apply Nat.div_small. lia.
  - cbn [stride_from length]. destruct skip as [| skip].
    + cbn [length]. rewrite IH by lia.
      replace (step - 1 - Nat.pred step)%nat with 0%nat by lia.
      replace (S (length l) + (step - 1 - 0))%nat
        with (length l + 0 + 1 * step)%nat by lia.
      rewrite Nat.div_add by lia. lia.
    + rewrite IH by lia. f_equal. lia.
Qed.

(** C4. [make_song_listener_list] enumerates the pairs song by song, the
    listeners of each song in key order: the pair of song [i] and listener
    [j] is at position [i * (number of listeners) + j], and there are no
    other pairs.  With [small_test] it keeps the pairs at positions 0, 15,
    30, ... of that enumeration and no others.  Empty inputs give the
    empty list. *)
Theorem make_song_listener_list_enumerates (V : Type)
    (songs : list string) (listeners : dict V) :
  let keys := dict_keys listeners in
  let full := make_song_listener_list songs listeners false in
  let reduced := make_song_listener_list songs listeners true in
  length full = (length songs * length keys)%nat
  /\ (forall i j song listener,
        nth_error songs i = Some song ->
        nth_error keys j = Some listener ->
        nth_error full (i * length keys + j) = Some (song, listener))
  /\ (forall k, nth_error reduced k = nth_error full (15 * k))
  /\ length reduced = ((length full + 14) / 15)%nat
  /\ (forall b, make_song_listener_list [] listeners b = [])
  /\ (forall b, make_song_listener_list songs (@nil (string * V)) b = []).
Proof.
  intros keys full reduced. subst keys full reduced.
  unfold make_song_listener_list. repeat split.
  - apply product_length.
  - apply product_nth_error.
  - intros k. unfold stride. now rewrite stride_from_nth_error by lia.
  - unfold stride. now rewrite stride_from_length by lia.
  - intros []; reflexivity.
  - intros b.
    assert (E : product songs (dict_keys (@nil (string * V))) = []).
    { unfold product. induction songs; [reflexivity | assumption]. }
    rewrite E. now destruct b.
Qed.

(** *** Running the monad *)

Lemma bind_emit {B : Type} (e : event) (k : unit -> M B) (w : world) :
  bind (emit e) k w
  = k tt (mk_world (files w) (np_random w) (trace w ++ [e])).
Proof. reflexivity. Qed.

Lemma bind_lift {A B : Type} (r : result A) (k : A -> M B) (w : world) :
  bind (lift r) k w
  = match r with Ok a => k a w | Raise e => (Raise e, w) end.
Proof. unfold bind, lift. now destruct r. Qed.

Lemma bind_from_option {A B : Type} (e : exn) (o : option A)
    (k : A -> M B) (w : world) :
  bind (from_option e o) k w
  = match o with Some a => k a w | None => (Raise e, w) end.
Proof. unfold bind, from_option. now destruct o. Qed.

Lemma bind_read_wav {B : Type} (p : path) (k : Z * signal -> M B) (w : world) :
  bind (read_wav p) k w
  = match wavfile_read p with
    | Some a => k a (mk_world (files w) (np_random w) (trace w ++ [EvRead p]))
    | None =>
        (Raise FileNotFoundError,
         mk_world (files w) (np_random w) (trace w ++ [EvRead p]))
    end.
Proof.
  unfold read_wav, bind, emit, from_option. cbn.
  now destruct (wavfile_read p).
Qed.

Lemma bind_py_assert {B : Type} (b : bool) (k : unit -> M B) (w : world) :
  bind (py_assert b) k w
  = if b then k tt w else (Raise AssertionError, w).
Proof. unfold bind, py_assert. now destruct b. Qed.

Lemma bind_compute_haaqi {B : Type} (enh ref : signal) (audiogram : list Q)
    (freqs : list Z) (fs : Z) (k : float -> M B) (w : world) :
  bind (compute_haaqi enh ref audiogram freqs fs) k w
  = match audiogram_adjusted audiogram freqs with
    | Raise e => (Raise e, w)
    | Ok adjusted =>
        let args := mk_metric_args ref fs enh fs adjusted 1 in
        let t := trace w ++ [EvMetric args] in
        match haaqi_v1 args (np_random w) with
        | (Some score, g) => k score (mk_world (files w) g t)
        | (None, g) => (Raise MetricError, mk_world (files w) g t)
        end
    end.
Proof.
  unfold compute_haaqi, call_haaqi_v1, bind, lift, emit. cbn.
  destruct (audiogram_adjusted audiogram freqs); [| reflexivity].
  now destruct (haaqi_v1 _ (np_random w)) as [[score |] g].
Qed.


Ltac run_instrument :=
  unfold eval_instrument;
  repeat first
    [ rewrite bind_emit
    | rewrite bind_lift
    | rewrite bind_read_wav
    | rewrite bind_py_assert
    | rewrite bind_from_option
    | rewrite bind_compute_haaqi
    | progress cbn [files np_random trace fst snd ret]
    | match goal with
      | H : ?x = _ |- context [match ?x with _ => _ end] => rewrite H
      | |- context [match ?x with _ => _ end] =>
          match x with
          | context [match _ with _ => _ end] => fail 1
          | _ => destruct x eqn:?
          end
      end ].


Ltac close_trace :=
  cbn [files np_random trace fst snd];
  rewrite <- ?app_assoc; cbn [app].

Lemma eval_instrument_frame cfg songs las song listener scores i w :
  let out := eval_instrument cfg songs las song listener scores i w in
  files (snd out) = files w
  /\ exists t,
      trace (snd out) = trace w ++ LogInstrument i :: t
      /\ forallb quiet t = true.
Proof.
  cbv zeta. run_instrument;
    (split; [reflexivity | close_trace; eexists; split; reflexivity]).
Qed.

Lemma eval_instrument_ok cfg songs las song listener scores i w scores' :
  let out := eval_instrument cfg songs las song listener scores i w in
  fst out = Ok scores' ->
  exists split ref lenh renh a lref rref adjl adjr lscore rscore,
    let fs := nalr_fs cfg in
    song_split songs song = Ok split
    /\ wavfile_read (reference_path cfg (split_dir_of split) song i)
       = Some (fs, ref)
    /\ wavfile_read (enhanced_path listener song "left" i) = Some (fs, lenh)
    /\ wavfile_read (enhanced_path listener song "right" i) = Some (fs, renh)
    /\ dict_get las listener = Some a
    /\ column 0 (normalise_reference (sig_data ref)) = Ok lref
    /\ column 1 (normalise_reference (sig_data ref)) = Ok rref
    /\ audiogram_adjusted (audiogram_levels_l a) (audiogram_cfs a) = Ok adjl
    /\ audiogram_adjusted (audiogram_levels_r a) (audiogram_cfs a) = Ok adjr
    /\ scores' = dict_set (dict_set scores ("left_" ++ i) lscore)
                   ("right_" ++ i) rscore
    /\ trace (snd out)
       = trace w
           ++ [ LogInstrument i;
                EvRead (reference_path cfg (split_dir_of split) song i);
                EvRead (enhanced_path listener song "left" i);
                EvRead (enhanced_path listener song "right" i);
                EvMetric (mk_metric_args lref fs lenh fs adjl 1);
                EvMetric (mk_metric_args rref fs renh fs adjr 1) ].
Proof.
  cbv zeta. run_instrument; intros H; try discriminate H.
  injection H as <-.
  repeat match goal with
         | H : _ && _ = true |- _ => apply andb_true_iff in H as [? ?]
         | H : (_ =? _) = true |- _ => apply Z.eqb_eq in H
         end.
  subst. close_trace. repeat eexists; eassumption.
Qed.

(** *** Traces *)

Lemma quiet_no_seed (t : list event) :
  forallb quiet t = true -> seed_events t = [].
Proof.
  induction t as [| e t IH]; [reflexivity |].
  cbn [forallb]. intros H. apply andb_true_iff in H as [He Ht].
  destruct e; try discriminate He; cbn; auto.
Qed.

Lemma metric_calls_for_quiet (i : string) (t t' : list event) :
  forallb quiet t = true ->
  metric_calls_for i (t ++ t') = metric_calls_for i t'.
Proof.
  induction t as [| e t IH]; [reflexivity |].
  cbn [forallb]. intros H. apply andb_true_iff in H as [He Ht].
  destruct e; try discriminate He; cbn; auto.
Qed.

Lemma seed_events_app (t t' : list event) :
  seed_events (t ++ t') = seed_events t ++ seed_events t'.
Proof.
  induction t as [| e t IH]; [reflexivity |].
  destruct e; cbn; rewrite ?IH; reflexivity.
Qed.

(** *** One instrument with mismatched sample rates *)

Lemma column_raise (k : nat) (s : signal) (e : exn) :
  column k s = Raise e -> e = IndexError.
Proof.
  unfold column. destruct (sig_data s) as [| width frames].
  - congruence.
  - destruct (k <? width)%nat; congruence.
Qed.

Ltac rates_equal :=
  repeat match goal with
         | H : _ && _ = true |- _ => apply andb_true_iff in H as [? ?]
         | H : (_ =? _) = true |- _ => apply Z.eqb_eq in H
         end.

Lemma eval_instrument_mismatch cfg songs las song listener scores i w
      split rate_ref ref rate_left lenh rate_right renh :
  song_split songs song = Ok split ->
  wavfile_read (reference_path cfg (split_dir_of split) song i)
  = Some (rate_ref, ref) ->
  wavfile_read (enhanced_path listener song "left" i) = Some (rate_left, lenh) ->
  wavfile_read (enhanced_path listener song "right" i)
  = Some (rate_right, renh) ->
  ~ (rate_ref = rate_left /\ rate_left = rate_right
     /\ rate_right = nalr_fs cfg) ->
  let out := eval_instrument cfg songs las song listener scores i w in
  (fst out = Raise AssertionError \/ fst out = Raise IndexError)
  /\ exists t,
      trace (snd out) = trace w ++ LogInstrument i :: t
      /\ metric_calls t = [].
Proof.
  intros Hsplit Href Hleft Hright Hrates. cbv zeta.
  run_instrument;
    try (exfalso; apply Hrates; rates_equal; now auto);
    try match goal with
        | H : column _ _ = Raise _ |- _ => apply column_raise in H; subst
        end;
    (split; [auto | close_trace; eexists; split; reflexivity]).
Qed.

(** *** The loop over instruments *)

Lemma bind_run {A B : Type} (m : M A) (k : A -> M B) (w : world) :
  bind m k w
  = match m w with
    | (Ok a, w') => k a w'
    | (Raise e, w') => (Raise e, w')
    end.
Proof. reflexivity. Qed.

Lemma for_instruments_frame cfg songs las song listener todo :
  forall scores w,
    let out := for_instruments cfg songs las song listener todo scores w in
    files (snd out) = files w
    /\ exists t,
        trace (snd out) = trace w ++ t /\ seed_events t = [].
Proof.
  induction todo as [| i todo IH]; intros scores w; cbv zeta.
  - cbn. split; [reflexivity |]. exists []. now rewrite app_nil_r.
  - cbn [for_instruments]. rewrite bind_run.
    pose proof (eval_instrument_frame cfg songs las song listener scores i w)
      as (Hf & t & Ht & Hq).
    destruct (eval_instrument cfg songs las song listener scores i w)
      as [[scores' | e] w1]; cbn [fst snd] in *.
    + destruct (IH scores' w1) as (Hf' & t' & Ht' & Hs').
      split; [congruence |].
      exists (LogInstrument i :: t ++ t'). split.
      * rewrite Ht', Ht, <- app_assoc. reflexivity.
      * cbn. now rewrite seed_events_app, quiet_no_seed, Hs'.
    + split; [assumption |].
      exists (LogInstrument i :: t). split; [assumption |].
      cbn. now apply quiet_no_seed.
Qed.

Lemma metric_calls_for_no_calls (i : string) (t : list event) :
  metric_calls t = [] -> metric_calls_for i t = [].
Proof.
  induction t as [| e t IH]; [reflexivity |].
  destruct e; cbn; try discriminate; auto.
  intros H. destruct (String.eqb instrument i); auto.
Qed.

Lemma for_instruments_mismatch cfg songs las song listener i
      split rate_ref ref rate_left lenh rate_right renh :
  song_split songs song = Ok split ->
  wavfile_read (reference_path cfg (split_dir_of split) song i)
  = Some (rate_ref, ref) ->
  wavfile_read (enhanced_path listener song "left" i) = Some (rate_left, lenh) ->
  wavfile_read (enhanced_path listener song "right" i)
  = Some (rate_right, renh) ->
  ~ (rate_ref = rate_left /\ rate_left = rate_right
     /\ rate_right = nalr_fs cfg) ->
  forall todo,
    In i todo ->
    forall scores w,
      let out := for_instruments cfg songs las song listener todo scores w in
      (exists e, fst out = Raise e)
      /\ exists t,
          trace (snd out) = trace w ++ t /\ metric_calls_for i t = [].
Proof.
  intros Hsplit Href Hleft Hright Hrates.
  induction todo as [| j todo IH]; intros Hin scores w; [destruct Hin |].
  cbv zeta. cbn [for_instruments]. rewrite bind_run.
  destruct (String.eqb_spec j i) as [-> | Hne].
  - pose proof (eval_instrument_mismatch cfg songs las song listener scores
                  i w _ _ _ _ _ _ _ Hsplit Href Hleft Hright Hrates)
      as (He & t & Ht & Hcalls).
    destruct (eval_instrument cfg songs las song listener scores i w)
      as [[scores' | e] w1]; cbn [fst snd] in *.
    + destruct He; discriminate.
    + split; [eauto |]. exists (LogInstrument i :: t).
      split; [assumption |]. cbn. now rewrite String.eqb_refl.
  - destruct Hin as [-> | Hin]; [congruence |].
    pose proof (eval_instrument_frame cfg songs las song listener scores j w)
      as (_ & t & Ht & Hq).
    apply String.eqb_neq in Hne.
    destruct (eval_instrument cfg songs las song listener scores j w)
      as [[scores' | e] w1]; cbn [fst snd] in *.
    + destruct (IH Hin scores' w1) as (He & t' & Ht' & Hcalls).
      split; [assumption |]. exists (LogInstrument j :: t ++ t').
      split.
      * rewrite Ht', Ht, <- app_assoc. reflexivity.
      * cbn. rewrite Hne. now rewrite metric_calls_for_quiet.
    + split; [eauto |]. exists (LogInstrument j :: t).
      split; [assumption |]. cbn. rewrite Hne.
      rewrite <- (app_nil_r t). now rewrite metric_calls_for_quiet.
Qed.

(** *** One pair *)

Lemma eval_pair_run cfg songs las rf song listener w :
  exists w0,
    files w0 = files w
    /\ trace w0 = trace w ++ pair_prologue (set_random_seed cfg) song listener
    /\ eval_pair cfg songs las rf (song, listener) w
       = match for_instruments cfg songs las song listener instruments [] w0
         with
         | (Ok scores, w1) =>
             add_result rf listener song (np_mean (dict_values scores))
               scores w1
         | (Raise e, w1) => (Raise e, w1)
         end.
Proof.
  exists (mk_world (files w)
            (if set_random_seed cfg then mt_seed (seed_of song)
             else np_random w)
            (trace w ++ pair_prologue (set_random_seed cfg) song listener)).
  split; [reflexivity |]. split; [reflexivity |].
  unfold eval_pair, pair_prologue. rewrite bind_emit.
  destruct (set_random_seed cfg).
  - rewrite bind_run.
    rewrite set_song_seed_run.
    rewrite bind_run. cbn [files np_random trace]. rewrite <- app_assoc.
    reflexivity.
  - rewrite bind_run. cbn [ret]. rewrite bind_run. reflexivity.
Qed.

Lemma bind_update_files {B : Type} (f : filesystem -> filesystem)
    (k : unit -> M B) (w : world) :
  bind (update_files f) k w
  = k tt (mk_world (f (files w)) (np_random w) (trace w)).
Proof. reflexivity. Qed.

Lemma add_result_trace rf listener song score scores w :
  trace (snd (add_result rf listener song score scores w))
  = trace w ++ [LogCombined score]
  /\ seed_events [LogCombined score] = [].
Proof.
  split; [| reflexivity].
  unfold add_result.
  rewrite bind_emit, bind_update_files.
  repeat (rewrite bind_from_option;
          match goal with
          | |- context [match ?x with _ => _ end] => destruct x
          end; [| reflexivity]).
  reflexivity.
Qed.

Lemma eval_pair_trace cfg songs las rf song listener w :
  let out := eval_pair cfg songs las rf (song, listener) w in
  exists t,
    trace (snd out)
    = trace w ++ pair_prologue (set_random_seed cfg) song listener ++ t
    /\ seed_events t = [].
Proof.
  cbv zeta.
  destruct (eval_pair_run cfg songs las rf song listener w)
    as (w0 & Hf0 & Ht0 & ->).
  pose proof (for_instruments_frame cfg songs las song listener instruments
                [] w0) as (_ & t & Ht & Hs).
  destruct (for_instruments cfg songs las song listener instruments [] w0)
    as [[scores | e] w1]; cbn [fst snd] in *.
  - destruct (add_result_trace rf listener song
                (np_mean (dict_values scores)) scores w1) as [-> _].
    exists (t ++ [LogCombined (np_mean (dict_values scores))]).
    split.
    + rewrite Ht, Ht0, <- !app_assoc. reflexivity.
    + rewrite seed_events_app, Hs. reflexivity.
  - exists t. split; [| assumption].
    rewrite Ht, Ht0, <- !app_assoc. reflexivity.
Qed.

(** C5. If, for one of the four instruments of a pair, the sample rates of
    the reference stem, of the two enhanced channels and of the
    configuration are not all equal, then the evaluation of that
    instrument raises (the assertion fails, or the reference has no two
    channels) without calling the metric; the evaluation of the pair
    raises, the metric is not called after the instrument is announced,
    and no file is written. *)
Theorem sample_rate_mismatch_is_fatal cfg songs las rf song listener i w
      split rate_ref ref rate_left lenh rate_right renh :
  In i instruments ->
  song_split songs song = Ok split ->
  wavfile_read (reference_path cfg (split_dir_of split) song i)
  = Some (rate_ref, ref) ->
  wavfile_read (enhanced_path listener song "left" i) = Some (rate_left, lenh) ->
  wavfile_read (enhanced_path listener song "right" i)
  = Some (rate_right, renh) ->
  ~ (rate_ref = rate_left /\ rate_left = rate_right
     /\ rate_right = nalr_fs cfg) ->
  (forall scores w',
      let step := eval_instrument cfg songs las song listener scores i w' in
      (fst step = Raise AssertionError \/ fst step = Raise IndexError)
      /\ exists t,
          trace (snd step) = trace w' ++ LogInstrument i :: t
          /\ metric_calls t = [])
  /\ let out := eval_pair cfg songs las rf (song, listener) w in
     (exists e, fst out = Raise e)
     /\ files (snd out) = files w
     /\ exists t,
         trace (snd out) = trace w ++ t /\ metric_calls_for i t = [].
Proof.
  intros Hin Hsplit Href Hleft Hright Hrates. split.
  - intros scores w'.
    exact (eval_instrument_mismatch cfg songs las song listener scores i w'
             _ _ _ _ _ _ _ Hsplit Href Hleft Hright Hrates).
  - cbv zeta.
    destruct (eval_pair_run cfg songs las rf song listener w)
      as (w0 & Hf0 & Ht0 & ->).
    pose proof (for_instruments_mismatch cfg songs las song listener i
                  _ _ _ _ _ _ _ Hsplit Href Hleft Hright Hrates
                  instruments Hin [] w0) as ((e & He) & t & Ht & Hcalls).
    pose proof (for_instruments_frame cfg songs las song listener
                  instruments [] w0) as (Hf & _).
    destruct (for_instruments cfg songs las song listener instruments [] w0)
      as [[scores | e'] w1]; cbn [fst snd] in *; [discriminate |].
    split; [eauto |]. split; [congruence |].
    exists (pair_prologue (set_random_seed cfg) song listener ++ t).
    split.
    + rewrite Ht, Ht0, <- app_assoc. reflexivity.
    + unfold pair_prologue. destruct (set_random_seed cfg); exact Hcalls.
Qed.

Lemma for_pairs_seeds cfg songs las rf pairs :
  set_random_seed cfg = true ->
  forall w,
    let out := for_pairs cfg songs las rf pairs w in
    exists k,
      seed_events (trace (snd out))
      = seed_events (trace w)
          ++ map (fun p => seed_of (fst p)) (firstn k pairs)
      /\ (fst out = Ok tt -> k = length pairs).
Proof.
  intros Hseed. induction pairs as [| [song listener] pairs IH]; intros w.
  - exists 0%nat. cbn. now rewrite app_nil_r.
  - cbv zeta. cbn [for_pairs]. rewrite bind_run.
    pose proof (eval_pair_trace cfg songs las rf song listener w)
      as (t & Ht & Hs).
    rewrite Hseed in Ht. cbn [pair_prologue] in Ht.
    destruct (eval_pair cfg songs las rf (song, listener) w)
      as [[[] | e] w1]; cbn [fst snd] in *.
    + destruct (IH w1) as (k & Hk & Hok).
      exists (S k). split.
      * rewrite Hk, Ht, !seed_events_app. cbn. rewrite Hs, <- app_assoc.
        reflexivity.
      * intros H. cbn. f_equal. auto.
    + exists 1%nat. split; [| discriminate].
      rewrite Ht, !seed_events_app. cbn. now rewrite Hs.
Qed.

(** C7 (as the script does it). With reseeding enabled, the seed of the
    song is applied once in the evaluation of each (song, listener) pair,
    before the first instrument of the pair and not again for its
    instruments or channels; over the run, the seeds applied are those of
    the songs of the pairs evaluated, one per pair, in order. *)
Theorem seed_applied_once_per_pair cfg songs las rf :
  set_random_seed cfg = true ->
  (forall song listener w,
      let out := eval_pair cfg songs las rf (song, listener) w in
      exists t,
        trace (snd out)
        = trace w ++ LogEvaluating song listener
                  :: EvSeed (seed_of song) :: t
        /\ seed_events t = [])
  /\ (forall pairs w,
        let out := for_pairs cfg songs las rf pairs w in
        exists k,
          seed_events (trace (snd out))
          = seed_events (trace w)
              ++ map (fun p => seed_of (fst p)) (firstn k pairs)
          /\ (fst out = Ok tt -> k = length pairs)).
Proof.
  intros Hseed. split.
  - intros song listener w. cbv zeta.
    destruct (eval_pair_trace cfg songs las rf song listener w)
      as (t & Ht & Hs).
    rewrite Hseed in Ht. exists t. split; assumption.
  - intros pairs w. now apply for_pairs_seeds.
Qed.

(** *** Where the reference is read from *)

Lemma song_split_first (songs pre post : list song_row) (row : song_row)
    (song : string) :
  songs = pre ++ row :: post ->
  Track_Name row = song ->
  Forall (fun r => Track_Name r <> song) pre ->
  song_split songs song = Ok (Split row).
Proof.
  intros -> Hrow Hpre. unfold song_split.
  rewrite filter_app.
  replace (filter (fun r => String.eqb (Track_Name r) song) pre) with
    (@nil song_row).
  - cbn. rewrite Hrow, String.eqb_refl. reflexivity.
  - symmetry. induction Hpre as [| r pre Hr _ IH]; [reflexivity |].
    cbn. apply String.eqb_neq in Hr. now rewrite Hr.
Qed.

Lemma eval_instrument_reads_reference cfg songs las song listener scores i w
      split :
  song_split songs song = Ok split ->
  exists t,
    trace (snd (eval_instrument cfg songs las song listener scores i w))
    = trace w
        ++ LogInstrument i
        :: EvRead [music_dir cfg; split_dir_of split; song;
                   (i ++ ".wav")%string]
        :: t.
Proof.
  intros Hsplit. run_instrument; close_trace; eexists; reflexivity.
Qed.

(** C10. The split of a song is that of the first catalog row with its
    track name.  When it is anything but the string test, the reference
    stem of every instrument is read from the train directory (and from
    the test directory when it is test). *)
Theorem reference_read_from_train cfg songs las song listener scores i w
      pre row post :
  songs = pre ++ row :: post ->
  Track_Name row = song ->
  Forall (fun r => Track_Name r <> song) pre ->
  let out := eval_instrument cfg songs las song listener scores i w in
  song_split songs song = Ok (Split row)
  /\ (Split row <> "test"%string ->
      exists t,
        trace (snd out)
        = trace w
            ++ LogInstrument i
            :: EvRead [music_dir cfg; "train"; song; (i ++ ".wav")]%string
            :: t)
  /\ (Split row = "test"%string ->
      exists t,
        trace (snd out)
        = trace w
            ++ LogInstrument i
            :: EvRead [music_dir cfg; "test"; song; (i ++ ".wav")]%string
            :: t).
Proof.
  intros Hsongs Hrow Hpre. cbv zeta.
  pose proof (song_split_first songs pre post row song Hsongs Hrow Hpre)
    as Hsplit.
  pose proof (eval_instrument_reads_reference cfg songs las song listener
                scores i w (Split row) Hsplit) as (t & Ht).
  split; [assumption |]. split; intros Htest; exists t; rewrite Ht.
  - apply String.eqb_neq in Htest. unfold split_dir_of. now rewrite Htest.
  - unfold split_dir_of. rewrite Htest. reflexivity.
Qed.

(** *** The scores of a pair and its row *)

Lemma eval_instrument_scores cfg songs las song listener scores i w scores' :
  fst (eval_instrument cfg songs las song listener scores i w) = Ok scores' ->
  exists lscore rscore,
    scores' = dict_set (dict_set scores ("left_" ++ i) lscore)
                ("right_" ++ i) rscore.
Proof.
  intros H.
  destruct (eval_instrument_ok cfg songs las song listener scores i w
              scores' H)
    as (? & ? & ? & ? & ? & ? & ? & ? & ? & lscore & rscore & Hok).
  exists lscore, rscore. apply Hok.
Qed.

Lemma for_instruments_scores cfg songs las song listener w scores :
  fst (for_instruments cfg songs las song listener instruments [] w)
  = Ok scores ->
  exists ld rd lb rb lo ro lv rv,
    scores = [ ("left_drums", ld); ("right_drums", rd);
               ("left_bass", lb); ("right_bass", rb);
               ("left_other", lo); ("right_other", ro);
               ("left_vocals", lv); ("right_vocals", rv) ]%string.
Proof.
  unfold instruments. cbn [for_instruments]. intros H.
  repeat
    (rewrite bind_run in H;
     match type of H with
     | context [eval_instrument ?c ?s ?l ?so ?li ?sc ?i ?w0] =>
         let sc' := fresh "sc" in
         let w' := fresh "w" in
         pose proof (eval_instrument_scores c s l so li sc i w0) as Hi;
         destruct (eval_instrument c s l so li sc i w0) as [[sc' | ?] w'];
         cbn [fst snd] in H, Hi; [| discriminate H];
         destruct (Hi sc' eq_refl) as (? & ? & ->); clear Hi
     end).
  cbn in H. injection H as <-. repeat eexists.
Qed.

Lemma fs_append_content (fs : filesystem) (name : string) (text : list ascii) :
  content (fs_append fs name text) name = content fs name ++ text.
Proof.
  unfold fs_append, fs_write, content at 1. now rewrite String.eqb_refl.
Qed.

Lemma add_result_run rf listener song score ld rd lb rb lo ro lv rv w :
  let scores :=
    [ ("left_drums", ld); ("right_drums", rd);
      ("left_bass", lb); ("right_bass", rb);
      ("left_other", lo); ("right_other", ro);
      ("left_vocals", lv); ("right_vocals", rv) ]%string in
  let out := add_result rf listener song score scores w in
  fst out = Ok tt
  /\ content (files (snd out)) (file_name rf)
     = content (files w) (file_name rf)
         ++ csv_writerow
              [ song; listener; str_float score;
                str_float lb; str_float rb; str_float ld; str_float rd;
                str_float lo; str_float ro; str_float lv; str_float rv ].
Proof.
  cbv zeta. unfold add_result.
  rewrite bind_emit, bind_update_files.
  repeat (rewrite bind_from_option; cbn [dict_get String.eqb Ascii.eqb Bool.eqb]).
  unfold update_files. cbn [fst snd files].
  split; [reflexivity |].
  rewrite !fs_append_content, app_nil_r. reflexivity.
Qed.

(** C3. The combined score of a pair is the mean of its 8 scores (left and
    right of drums, bass, other and vocals, in the order they were computed),
    each with the same weight: their sum, formed in binary64 as NumPy forms
    it, divided by 8; a score of 8 among seven of 0 gives 1 whatever its
    place, the mean of 1, ..., 8 is 4.5 and the mean of 0.1, ..., 0.8 is
    0.45; the row appended for the pair holds that mean and the 8 scores. *)
Theorem combined_score_is_mean :
  (forall a b c d e f g h : float,
      np_mean [a; b; c; d; e; f; g; h]
      = ((0 + (((a + b) + (c + d)) + ((e + f) + (g + h)))) / 8)%float)
  /\ (forall j : nat,
        (j < 8)%nat ->
        np_mean (firstn j (repeat 0%float 8) ++ 8%float
                   :: skipn (S j) (repeat 0%float 8)) = 1%float)
  /\ np_mean [1; 2; 3; 4; 5; 6; 7; 8]%float = 4.5%float
  /\ np_mean [0.1; 0.2; 0.3; 0.4; 0.5; 0.6; 0.7; 0.8]%float = 0.45%float
  /\ (forall cfg songs las rf song listener w,
        let out := eval_pair cfg songs las rf (song, listener) w in
        fst out = Ok tt ->
        exists ld rd lb rb lo ro lv rv : float,
          let score := np_mean [ld; rd; lb; rb; lo; ro; lv; rv] in
          content (files (snd out)) (file_name rf)
          = content (files w) (file_name rf)
              ++ csv_writerow
                   [ song; listener; str_float score;
                     str_float lb; str_float rb; str_float ld; str_float rd;
                     str_float lo; str_float ro; str_float lv;
                     str_float rv ]).
Proof.
  split; [| split; [| split; [| split]]].
  - intros a b c d e f g h. reflexivity.
  - intros j Hj.
    do 8 (destruct j as [| j]; [vm_compute; reflexivity |]). lia.
  - vm_compute. reflexivity.
  - vm_compute. reflexivity.
  - intros cfg songs las rf song listener w. cbv zeta.
    destruct (eval_pair_run cfg songs las rf song listener w)
      as (w0 & Hf0 & Ht0 & ->).
    pose proof (for_instruments_scores cfg songs las song listener w0)
      as Hscores.
    pose proof (for_instruments_frame cfg songs las song listener
                  instruments [] w0) as (Hf & _).
    destruct (for_instruments cfg songs las song listener instruments [] w0)
      as [[scores | e] w1]; cbn [fst snd] in *; [| discriminate].
    intros _.
    destruct (Hscores scores eq_refl)
      as (ld & rd & lb & rb & lo & ro & lv & rv & ->).
    exists ld, rd, lb, rb, lo, ro, lv, rv.
    destruct (add_result_run rf listener song
                (np_mean [ld; rd; lb; rb; lo; ro; lv; rv])
                ld rd lb rb lo ro lv rv w1) as [_ Hrow].
    cbv zeta in Hrow. cbn [dict_values map snd].
    rewrite Hrow, Hf, Hf0. reflexivity.
Qed.

(** *** Amplitudes that reach the metric *)

Lemma check_down_spec (f : Z -> bool) (n : nat) :
  forall hi,
    check_down f n hi = true ->
    forall z, hi - Z.of_nat n < z <= hi -> f z = true.
Proof.
  induction n as [| n IH]; intros hi H z Hz; [lia |].
  cbn [check_down] in H. apply andb_true_iff in H as [Hhi Hrest].
  destruct (Z.eq_dec z hi) as [-> | Hne]; [assumption |].
  apply (IH (hi - 1) Hrest). lia.
Qed.

Lemma astype_float32_int16_check :
  check_down exact_on_int16 (Z.to_nat 65536) 32767 = true.
Proof. vm_compute. reflexivity. Qed.

Lemma astype_float32_int16 (n : Z) :
  -32768 <= n <= 32767 ->
  (astype_float32 (inject_Z n / 32768) == inject_Z n / 32768)%Q.
Proof.
  intros Hn. apply Qeq_bool_iff.
  apply (check_down_spec exact_on_int16 (Z.to_nat 65536) 32767
           astype_float32_int16_check).
  rewrite Z2Nat.id by lia. lia.
Qed.

Lemma int16_quotient_range (n : Z) :
  -32768 <= n <= 32767 ->
  (-1 <= inject_Z n / 32768 /\ inject_Z n / 32768 < 1)%Q.
Proof.
  intros Hn. unfold Qle, Qlt. cbn. lia.
Qed.

Lemma int16_quotient_differs (n : Z) :
  n <> 0 -> ~ (inject_Z n / 32768 == inject_Z n)%Q.
Proof.
  intros Hn. unfold Qeq. cbn. lia.
Qed.

Lemma eval_instrument_metric_args cfg songs las song listener scores i w :
  let out := eval_instrument cfg songs las song listener scores i w in
  exists t,
    trace (snd out) = trace w ++ t
    /\ forall args,
        In args (metric_calls t) ->
        exists split rate ref channel k rate' enh,
          song_split songs song = Ok split
          /\ wavfile_read (reference_path cfg (split_dir_of split) song i)
             = Some (rate, ref)
          /\ ((channel = "left"%string /\ k = 0%nat)
              \/ (channel = "right"%string /\ k = 1%nat))
          /\ wavfile_read (enhanced_path listener song channel i)
             = Some (rate', enh)
          /\ processed args = enh
          /\ column k (normalise_reference (sig_data ref))
             = Ok (reference args).
Proof.
  cbv zeta. run_instrument; close_trace;
    (eexists; split; [reflexivity |]);
    cbn [metric_calls]; intros args Hin;
    repeat match goal with
           | H : In _ (_ :: _) |- _ => destruct H as [<- | H]
           | H : In _ [] |- _ => destruct H
           end;
    first
      [ solve [ eexists _, _, _, "left"%string, 0%nat, _, _;
                repeat split; try eassumption; left; split; reflexivity ]
      | solve [ eexists _, _, _, "right"%string, 1%nat, _, _;
                repeat split; try eassumption; right; split; reflexivity ] ].
Qed.

Lemma column_normalise_reference (k width : nat) (frames : list (list Q)) :
  (k < width)%nat ->
  column k (normalise_reference (Arr2 width frames))
  = Ok (reference_channel k frames).
Proof.
  intros Hk. unfold column, normalise_reference, reference_channel.
  cbn [sig_data ndarray_map sig_dtype].
  apply Nat.ltb_lt in Hk. rewrite Hk. do 3 f_equal.
  rewrite map_map. apply map_ext. intros frame.
  exact (map_nth (fun x => astype_float32 (x / 32768)) frame 0%Q k).
Qed.

(** With the three files read at the configured rate, a reference of two
    channels or more, the listener known and the left loss levels filtered,
    the metric is called: first for the left channel and, when that call
    returns and the right loss levels are filtered, for the right one. *)
Lemma eval_instrument_calls cfg songs las song listener scores i w
      split ref width frames lenh renh a adjl :
  song_split songs song = Ok split ->
  wavfile_read (reference_path cfg (split_dir_of split) song i)
  = Some (nalr_fs cfg, ref) ->
  sig_data ref = Arr2 width frames ->
  (2 <= width)%nat ->
  wavfile_read (enhanced_path listener song "left" i)
  = Some (nalr_fs cfg, lenh) ->
  wavfile_read (enhanced_path listener song "right" i)
  = Some (nalr_fs cfg, renh) ->
  dict_get las listener = Some a ->
  audiogram_adjusted (audiogram_levels_l a) (audiogram_cfs a) = Ok adjl ->
  let fs := nalr_fs cfg in
  let out := eval_instrument cfg songs las song listener scores i w in
  let left_call :=
    mk_metric_args (reference_channel 0 frames) fs lenh fs adjl 1 in
  exists t rest,
    trace (snd out) = trace w ++ t
    /\ metric_calls t = left_call :: rest
    /\ forall score g adjr,
        haaqi_v1 left_call (np_random w) = (Some score, g) ->
        audiogram_adjusted (audiogram_levels_r a) (audiogram_cfs a) = Ok adjr ->
        rest = [mk_metric_args (reference_channel 1 frames) fs renh fs adjr 1].
Proof.
  intros Hsplit Href Hdata Hwidth Hleft Hright Ha Hadjl. cbv zeta.
  pose proof (column_normalise_reference 0 width frames ltac:(lia)) as Hc0.
  pose proof (column_normalise_reference 1 width frames ltac:(lia)) as Hc1.
  rewrite <- Hdata in Hc0, Hc1.
  run_instrument; close_trace;
    try match goal with
        | H : _ && _ = false |- _ => rewrite !Z.eqb_refl in H; discriminate H
        end;
    (eexists; eexists; split; [reflexivity |]);
    cbn [metric_calls]; (split; [reflexivity |]);
    intros score g adjr Hm Hr; congruence.
Qed.

(** C8 (as the script does it). Whatever the sample format of a reference
    stem, when an instrument is evaluated up to the metric, the reference
    of the call for the left channel is channel 0 of the stem and that of
    the call for the right channel is channel 1, each sample divided by the
    constant 32768, the full scale of 16-bit samples, and narrowed to
    float32; no metric call has any other reference.  For a 16-bit stem
    this is the normalisation by the full scale of its format: exact, and
    in [-1, 1). *)
Theorem reference_divided_by_32768 :
  (forall cfg songs las song listener scores i w
          split ref width frames lenh renh a adjl,
      song_split songs song = Ok split ->
      wavfile_read (reference_path cfg (split_dir_of split) song i)
      = Some (nalr_fs cfg, ref) ->
      sig_data ref = Arr2 width frames ->
      (2 <= width)%nat ->
      wavfile_read (enhanced_path listener song "left" i)
      = Some (nalr_fs cfg, lenh) ->
      wavfile_read (enhanced_path listener song "right" i)
      = Some (nalr_fs cfg, renh) ->
      dict_get las listener = Some a ->
      audiogram_adjusted (audiogram_levels_l a) (audiogram_cfs a) = Ok adjl ->
      let fs := nalr_fs cfg in
      let out := eval_instrument cfg songs las song listener scores i w in
      let left_call :=
        mk_metric_args (reference_channel 0 frames) fs lenh fs adjl 1 in
      exists t rest,
        trace (snd out) = trace w ++ t
        /\ metric_calls t = left_call :: rest
        /\ forall score g adjr,
            haaqi_v1 left_call (np_random w) = (Some score, g) ->
            audiogram_adjusted (audiogram_levels_r a) (audiogram_cfs a)
            = Ok adjr ->
            rest = [mk_metric_args (reference_channel 1 frames) fs renh fs
                      adjr 1])
  /\ (forall cfg songs las song listener scores i w,
        let out := eval_instrument cfg songs las song listener scores i w in
        exists t,
          trace (snd out) = trace w ++ t
          /\ forall args,
              In args (metric_calls t) ->
              exists split rate ref k,
                song_split songs song = Ok split
                /\ wavfile_read (reference_path cfg (split_dir_of split) song i)
                   = Some (rate, ref)
                /\ (k = 0%nat \/ k = 1%nat)
                /\ column k
                     (mk_signal Float32
                        (ndarray_map (fun x => astype_float32 (x / 32768))
                           (sig_data ref)))
                   = Ok (reference args))
  /\ (forall s,
        sig_dtype s = Int16 ->
        normalise_reference (sig_data s) = normalise_by_full_scale s)
  /\ (forall k frames,
        Forall (fun frame => exists n : Z,
                    -32768 <= n <= 32767 /\ nth k frame 0%Q = inject_Z n)
          frames ->
        exists samples,
          sig_data (reference_channel k frames) = Arr1 samples
          /\ Forall2 (fun frame x =>
                        x == nth k frame 0 / 32768 /\ -1 <= x /\ x < 1)%Q
               frames samples).
Proof.
  split; [| split; [| split]].
  - intros cfg songs las song listener scores i w
           split ref width frames lenh renh a adjl.
    exact (eval_instrument_calls cfg songs las song listener scores i w
             split ref width frames lenh renh a adjl).
  - intros cfg songs las song listener scores i w. cbv zeta.
    destruct (eval_instrument_metric_args cfg songs las song listener
                scores i w) as (t & Ht & Hargs).
    exists t. split; [assumption |]. intros args Hin.
    destruct (Hargs args Hin)
      as (split & rate & ref & channel & k & rate' & enh
          & Hsplit & Href & Hk & _ & _ & Hcol).
    exists split, rate, ref, k. repeat split; try assumption.
    destruct Hk as [[_ ->] | [_ ->]]; auto.
  - intros s Hs. unfold normalise_by_full_scale, normalise_reference.
    rewrite Hs. reflexivity.
  - intros k frames Hframes. eexists. split; [reflexivity |].
    induction Hframes as [| frame frames (n & Hn & Hx) _ IH];
      cbn [map]; constructor; [| exact IH].
    rewrite Hx.
    pose proof (astype_float32_int16 n Hn) as Hexact.
    pose proof (int16_quotient_range n Hn) as [Hlo Hhi].
    split; [exact Hexact |]. rewrite Hexact. split; assumption.
Qed.

(** C9. When an instrument is evaluated up to the metric, the processed
    signal of the call for the left channel is the array decoded from the
    left enhanced file, unchanged, and that of the call for the right
    channel the array decoded from the right one, while the references are
    the channels of the stem divided by 32768; no metric call has other
    arguments.  Where the stem and an enhanced file hold the same 16-bit
    values, the reference sample is the processed sample divided by 32768:
    the two differ wherever the sample is not 0. *)
Theorem enhanced_passed_as_decoded :
  (forall cfg songs las song listener scores i w
          split ref width frames lenh renh a adjl,
      song_split songs song = Ok split ->
      wavfile_read (reference_path cfg (split_dir_of split) song i)
      = Some (nalr_fs cfg, ref) ->
      sig_data ref = Arr2 width frames ->
      (2 <= width)%nat ->
      wavfile_read (enhanced_path listener song "left" i)
      = Some (nalr_fs cfg, lenh) ->
      wavfile_read (enhanced_path listener song "right" i)
      = Some (nalr_fs cfg, renh) ->
      dict_get las listener = Some a ->
      audiogram_adjusted (audiogram_levels_l a) (audiogram_cfs a) = Ok adjl ->
      let out := eval_instrument cfg songs las song listener scores i w in
      exists t left_call rest,
        trace (snd out) = trace w ++ t
        /\ metric_calls t = left_call :: rest
        /\ processed left_call = lenh
        /\ reference left_call = reference_channel 0 frames
        /\ forall score g adjr,
            haaqi_v1 left_call (np_random w) = (Some score, g) ->
            audiogram_adjusted (audiogram_levels_r a) (audiogram_cfs a)
            = Ok adjr ->
            exists right_call,
              rest = [right_call]
              /\ processed right_call = renh
              /\ reference right_call = reference_channel 1 frames)
  /\ (forall cfg songs las song listener scores i w,
        let out := eval_instrument cfg songs las song listener scores i w in
        exists t,
          trace (snd out) = trace w ++ t
          /\ forall args,
              In args (metric_calls t) ->
              exists split rate ref channel k rate' enh,
                song_split songs song = Ok split
                /\ wavfile_read (reference_path cfg (split_dir_of split) song i)
                   = Some (rate, ref)
                /\ ((channel = "left"%string /\ k = 0%nat)
                    \/ (channel = "right"%string /\ k = 1%nat))
                /\ wavfile_read (enhanced_path listener song channel i)
                   = Some (rate', enh)
                /\ processed args = enh
                /\ column k
                     (mk_signal Float32
                        (ndarray_map (fun x => astype_float32 (x / 32768))
                           (sig_data ref)))
                   = Ok (reference args))
  /\ (forall k frames,
        Forall (fun frame => exists n : Z,
                    -32768 <= n <= 32767 /\ nth k frame 0%Q = inject_Z n)
          frames ->
        exists samples,
          sig_data (reference_channel k frames) = Arr1 samples
          /\ Forall2 (fun r p => r * 32768 == p /\ (~ p == 0 -> ~ r == p))%Q
               samples (map (fun frame => nth k frame 0%Q) frames)).
Proof.
  split; [| split].
  - intros cfg songs las song listener scores i w
           split ref width frames lenh renh a adjl
           Hsplit Href Hdata Hwidth Hleft Hright Ha Hadjl. cbv zeta.
    destruct (eval_instrument_calls cfg songs las song listener scores i w
                split ref width frames lenh renh a adjl
                Hsplit Href Hdata Hwidth Hleft Hright Ha Hadjl)
      as (t & rest & Ht & Hcalls & Hrest).
    exists t. eexists. exists rest.
    split; [exact Ht |]. split; [exact Hcalls |].
    split; [reflexivity |]. split; [reflexivity |].
    intros score g adjr Hm Hr. eexists.
    split; [exact (Hrest score g adjr Hm Hr) |]. split; reflexivity.
  - intros cfg songs las song listener scores i w.
    exact (eval_instrument_metric_args cfg songs las song listener scores
             i w).
  - intros k frames Hframes. eexists. split; [reflexivity |].
    induction Hframes as [| frame frames (n & Hn & Hx) _ IH];
      cbn [map]; constructor; [| exact IH].
    rewrite Hx.
    pose proof (astype_float32_int16 n Hn) as Hexact.
    split.
    + rewrite Hexact. field.
    + intros Hp. rewrite Hexact. apply int16_quotient_differs.
      intros ->. now apply Hp.
Qed.

(** *** Reading back what the writer wrote *)

Lemma csv_special_cases (c : ascii) :
  csv_special c = false ->
  Ascii.eqb c comma = false /\ Ascii.eqb c dquote = false
  /\ Ascii.eqb c CR = false /\ Ascii.eqb c LF = false.
Proof.
  unfold csv_special. intros H.
  repeat (apply orb_false_iff in H as [H ?]). auto.
Qed.

(** Characters of an unquoted field, from inside the field. *)
Lemma feed_plain (cs : list ascii) :
  Forall (fun c => csv_special c = false) cs ->
  forall d rest fld fs rows,
    reader_feed (cs ++ d :: rest) (mk_reader IN_FIELD fld fs rows)
    = reader_feed (d :: rest) (mk_reader IN_FIELD (fld ++ cs) fs rows).
Proof.
  induction 1 as [| c cs Hc _ IH]; intros d rest fld fs rows.
  - now rewrite app_nil_r.
  - apply csv_special_cases in Hc as (Hcomma & Hq & Hcr & Hlf).
    cbn [app reader_feed]. unfold reader_char. cbn [rd_state].
    unfold is_newline. rewrite Hcr, Hlf, Hcomma. cbn [orb].
    assert (Hends : line_ends c (cs ++ d :: rest) = false).
    { unfold line_ends. destruct (cs ++ d :: rest) eqn:E.
      - destruct cs; discriminate.
      - now rewrite Hlf, Hcr. }
    rewrite Hends. unfold add_char. cbn [rd_field rd_fields rd_rows].
    rewrite IH, <- app_assoc. reflexivity.
Qed.

(** In a quoted field the end of a line changes nothing. *)
Lemma eol_in_quoted (b : bool) (fld : list ascii) fs rows :
  (if b then reader_eol (mk_reader IN_QUOTED_FIELD fld fs rows)
   else mk_reader IN_QUOTED_FIELD fld fs rows)
  = mk_reader IN_QUOTED_FIELD fld fs rows.
Proof. now destruct b. Qed.

(** Characters of a quoted field, up to its closing quote. *)
Lemma feed_quoted (cs : list ascii) :
  forall d rest fld fs rows,
    reader_feed (flat_map escape cs ++ dquote :: d :: rest)
      (mk_reader IN_QUOTED_FIELD fld fs rows)
    = reader_feed (d :: rest)
        (mk_reader QUOTE_IN_QUOTED_FIELD (fld ++ cs) fs rows).
Proof.
  induction cs as [| c cs IH]; intros d rest fld fs rows.
  - cbn [flat_map app reader_feed]. unfold reader_char. cbn [rd_state].
    rewrite Ascii.eqb_refl. cbn. now rewrite app_nil_r.
  - cbn [flat_map]. unfold escape at 1.
    destruct (Ascii.eqb c dquote) eqn:Hq.
    + apply Ascii.eqb_eq in Hq. subst c.
      cbn [app reader_feed]. unfold reader_char at 1. cbn [rd_state].
      rewrite Ascii.eqb_refl.
      assert (H1 : line_ends dquote
                     (dquote :: flat_map escape cs ++ dquote :: d :: rest)
                   = false) by reflexivity.
      rewrite H1. unfold set_state. cbn [rd_field rd_fields rd_rows].
      unfold reader_char at 1. cbn [rd_state]. rewrite Ascii.eqb_refl.
      assert (H2 : line_ends dquote
                     (flat_map escape cs ++ dquote :: d :: rest) = false).
      { unfold line_ends.
        destruct (flat_map escape cs ++ dquote :: d :: rest) eqn:E;
          [| reflexivity].
        destruct (flat_map escape cs); discriminate. }
      rewrite H2. unfold add_char. cbn [rd_field rd_fields rd_rows].
      rewrite IH, <- app_assoc. reflexivity.
    + cbn [app reader_feed]. unfold reader_char at 1. cbn [rd_state].
      rewrite Hq. unfold add_char. cbn [rd_field rd_fields rd_rows].
      rewrite eol_in_quoted, IH, <- app_assoc. reflexivity.
Qed.

(** A field, from the start of a record or of a field, up to the
    delimiter or line end [d] that follows it. *)
Lemma read_field (f : string) (ps : reader_state) fs rows d rest :
  ps = START_RECORD \/ ps = START_FIELD ->
  exists st,
    reader_feed (csv_field f ++ d :: rest) (mk_reader ps [] fs rows)
    = reader_feed (d :: rest)
        (mk_reader st (list_ascii_of_string f) fs rows)
    /\ (st = IN_FIELD \/ st = QUOTE_IN_QUOTED_FIELD
        \/ (st = ps /\ f = EmptyString)).
Proof.
  intros Hps. unfold csv_field.
  destruct (existsb csv_special (list_ascii_of_string f)) eqn:Hsp.
  - exists QUOTE_IN_QUOTED_FIELD. split; [| auto].
    cbn [app reader_feed].
    assert (Hq : reader_char dquote (mk_reader ps [] fs rows)
                 = Some (mk_reader IN_QUOTED_FIELD [] fs rows))
      by (destruct Hps as [-> | ->]; reflexivity).
    rewrite Hq.
    assert (Hends : line_ends dquote
                      ((flat_map escape (list_ascii_of_string f) ++ [dquote])
                         ++ d :: rest) = false).
    { unfold line_ends.
      destruct ((flat_map escape (list_ascii_of_string f) ++ [dquote])
                  ++ d :: rest) eqn:E; [| reflexivity].
      destruct (flat_map escape (list_ascii_of_string f)); discriminate. }
    rewrite Hends, <- app_assoc. cbn [app]. now rewrite feed_quoted.
  - assert (Hplain : Forall (fun c => csv_special c = false)
                       (list_ascii_of_string f)).
    { apply Forall_forall. intros c Hc.
      destruct (csv_special c) eqn:E; [| reflexivity].
      assert (existsb csv_special (list_ascii_of_string f) = true)
        by (apply existsb_exists; eauto).
      congruence. }
    destruct (list_ascii_of_string f) as [| c cs] eqn:Hf.
    + exists ps. split; [reflexivity |]. right. right. split; [reflexivity |].
      rewrite <- (string_of_list_ascii_of_string f), Hf. reflexivity.
    + exists IN_FIELD. split; [| auto].
      inversion Hplain as [| ? ? Hc Hcs]; subst.
      apply csv_special_cases in Hc as (Hcomma & Hq & Hcr & Hlf).
      cbn [app reader_feed].
      assert (Hfirst : reader_char c (mk_reader ps [] fs rows)
                       = Some (mk_reader IN_FIELD [c] fs rows)).
      { destruct Hps as [-> | ->]; unfold reader_char, field_start, is_newline;
          cbn [rd_state]; rewrite Hcr, Hlf, Hq, Hcomma; reflexivity. }
      rewrite Hfirst.
      assert (Hends : line_ends c (cs ++ d :: rest) = false).
      { unfold line_ends. destruct (cs ++ d :: rest) eqn:E.
        - destruct cs; discriminate.
        - now rewrite Hlf, Hcr. }
      rewrite Hends. now rewrite feed_plain.
Qed.

Lemma comma_after (st : reader_state) fld fs rows rest :
  st = IN_FIELD \/ st = QUOTE_IN_QUOTED_FIELD \/ st = START_RECORD
  \/ st = START_FIELD ->
  rest <> [] ->
  reader_feed (comma :: rest) (mk_reader st fld fs rows)
  = reader_feed rest
      (mk_reader START_FIELD [] (fs ++ [string_of_list_ascii fld]) rows).
Proof.
  intros Hst Hrest. destruct rest as [| d rest]; [congruence |].
  destruct Hst as [-> | [-> | [-> | ->]]]; reflexivity.
Qed.

Lemma crlf_after (st : reader_state) fld fs rows rest :
  st = IN_FIELD \/ st = QUOTE_IN_QUOTED_FIELD \/ st = START_FIELD ->
  reader_feed (CR :: LF :: rest) (mk_reader st fld fs rows)
  = reader_feed rest
      (mk_reader START_RECORD [] []
         (rows ++ [fs ++ [string_of_list_ascii fld]])).
Proof.
  intros Hst.
  destruct Hst as [-> | [-> | ->]]; destruct rest; reflexivity.
Qed.

Lemma read_fields (fields : list string) :
  fields <> [] ->
  forall ps fs rows rest,
    ps = START_FIELD \/ (ps = START_RECORD /\ fields <> [EmptyString]) ->
    reader_feed (csv_join (map csv_field fields) ++ CR :: LF :: rest)
      (mk_reader ps [] fs rows)
    = reader_feed rest
        (mk_reader START_RECORD [] [] (rows ++ [fs ++ fields])).
Proof.
  induction fields as [| f fields IH]; [congruence |].
  intros _ ps fs rows rest Hps.
  assert (Hps' : ps = START_RECORD \/ ps = START_FIELD)
    by (destruct Hps as [-> | [-> _]]; auto).
  destruct fields as [| g fields].
  - cbn [map csv_join].
    destruct (read_field f ps fs rows CR (LF :: rest) Hps')
      as (st & -> & Hst).
    rewrite crlf_after.
    + now rewrite string_of_list_ascii_of_string.
    + destruct Hst as [-> | [-> | [-> ->]]]; auto.
      destruct Hps as [-> | [_ Hne]]; [auto | congruence].
  - change (csv_join (map csv_field (f :: g :: fields)))
      with (csv_field f ++ comma :: csv_join (map csv_field (g :: fields))).
    rewrite <- app_assoc. cbn [app].
    destruct (read_field f ps fs rows comma
                (csv_join (map csv_field (g :: fields)) ++ CR :: LF :: rest)
                Hps') as (st & -> & Hst).
    rewrite comma_after.
    + rewrite string_of_list_ascii_of_string.
      rewrite IH by (auto || discriminate).
      rewrite <- app_assoc. reflexivity.
    + destruct Hst as [-> | [-> | [-> _]]]; auto.
      all: try (destruct Hps' as [-> | ->]; auto).
    + destruct (csv_join (map csv_field (g :: fields))); discriminate.
Qed.

(** One row written by [csv_writerow], then whatever follows it. *)
Lemma read_row (fields : list string) (rows : list (list string))
    (rest : list ascii) :
  reader_feed (csv_writerow fields ++ rest)
    (mk_reader START_RECORD [] [] rows)
  = reader_feed rest (mk_reader START_RECORD [] [] (rows ++ [fields])).
Proof.
  destruct fields as [| f fields].
  - destruct rest; reflexivity.
  - destruct (list_eq_dec string_dec (f :: fields) [EmptyString]) as [E | Hne].
    + injection E as -> ->. destruct rest; reflexivity.
    + assert (Hrow : csv_writerow (f :: fields)
                     = csv_join (map csv_field (f :: fields)) ++ [CR; LF]).
      { unfold csv_writerow. destruct f; [| reflexivity].
        destruct fields; [congruence | reflexivity]. }
      rewrite Hrow, <- app_assoc. cbn [app].
      rewrite read_fields by (auto || discriminate). reflexivity.
Qed.

Lemma read_rows (written : list (list string)) :
  forall rows,
    reader_feed (concat (map csv_writerow written))
      (mk_reader START_RECORD [] [] rows)
    = Some (mk_reader START_RECORD [] [] (rows ++ written)).
Proof.
  induction written as [| fields written IH]; intros rows.
  - cbn. now rewrite app_nil_r.
  - cbn [map concat]. rewrite read_row, IH, <- app_assoc. reflexivity.
Qed.

Lemma csv_read_written (written : list (list string)) :
  csv_read (concat (map csv_writerow written)) = Some written.
Proof.
  unfold csv_read. rewrite read_rows. reflexivity.
Qed.

(** *** The results file *)

Lemma add_result_appends (self : ResultsFile) (r : result_record) (w : world) :
  (forall k, In k score_keys -> dict_get (rec_scores r) k <> None) ->
  let out := add_result self (rec_listener r) (rec_song r) (rec_score r)
               (rec_scores r) w in
  fst out = Ok tt
  /\ content (files (snd out)) (file_name self)
     = content (files w) (file_name self) ++ csv_writerow (row_of r).
Proof.
  intros Hkeys. cbv zeta. unfold add_result.
  rewrite bind_emit, bind_update_files.
  repeat (rewrite bind_from_option;
          match goal with
          | |- context [match dict_get ?d ?k with _ => _ end] =>
              destruct (dict_get d k) eqn:?;
              [| exfalso; apply (Hkeys k); [cbn; tauto | assumption]]
          end).
  unfold update_files. cbn [fst snd files]. split; [reflexivity |].
  rewrite !fs_append_content, app_nil_r. unfold row_of.
  cbn [score_keys map app].
  repeat match goal with
         | H : dict_get _ _ = Some _ |- _ => rewrite H; clear H
         end.
  reflexivity.
Qed.

Lemma add_results_append (self : ResultsFile) (records : list result_record) :
  Forall (fun r => forall k, In k score_keys ->
                             dict_get (rec_scores r) k <> None) records ->
  forall w,
    let out := add_results self records w in
    fst out = Ok tt
    /\ content (files (snd out)) (file_name self)
       = content (files w) (file_name self)
           ++ concat (map csv_writerow (map row_of records)).
Proof.
  induction 1 as [| r records Hr _ IH]; intros w; cbv zeta.
  - cbn. now rewrite app_nil_r.
  - cbn [add_results]. rewrite bind_run.
    pose proof (add_result_appends self r w Hr) as [Hok Hrow].
    destruct (add_result self (rec_listener r) (rec_song r) (rec_score r)
                (rec_scores r) w) as [[[] | e] w1];
      cbn [fst snd] in *; [| discriminate].
    destruct (IH w1) as [Hok' Hrows]. split; [assumption |].
    rewrite Hrows, Hrow, <- app_assoc. reflexivity.
Qed.

Lemma write_header_truncates (self : ResultsFile) (w : world) :
  let out := write_header self w in
  fst out = Ok tt
  /\ files (snd out) (file_name self) = Some (csv_writerow header_row).
Proof.
  cbv zeta. unfold write_header, update_files, fs_write. cbn.
  now rewrite String.eqb_refl.
Qed.

(** C6. After [write_header], which leaves in the file the header row
    alone, whatever it held, and one [add_result] per record (each record
    with the 8 score keys), reading the file back gives the header row
    and then the row of each record, in the order of the calls, 11 fields
    each.  Each [add_result] returns with its one row added at the end of
    the file. *)
Theorem results_file_round_trip (self : ResultsFile) :
  (forall w,
      let out := write_header self w in
      fst out = Ok tt
      /\ files (snd out) (file_name self) = Some (csv_writerow header_row))
  /\ (forall r w,
        (forall k, In k score_keys -> dict_get (rec_scores r) k <> None) ->
        let out := add_result self (rec_listener r) (rec_song r)
                     (rec_score r) (rec_scores r) w in
        fst out = Ok tt
        /\ content (files (snd out)) (file_name self)
           = content (files w) (file_name self) ++ csv_writerow (row_of r))
  /\ (forall records w,
        Forall (fun r => forall k, In k score_keys ->
                                   dict_get (rec_scores r) k <> None)
          records ->
        let out := bind (write_header self)
                     (fun _ => add_results self records) w in
        fst out = Ok tt
        /\ csv_read (content (files (snd out)) (file_name self))
           = Some (header_row :: map row_of records)
        /\ length header_row = 11%nat
        /\ Forall (fun row => length row = 11%nat) (map row_of records)).
Proof.
  split; [| split].
  - apply write_header_truncates.
  - intros r w Hkeys. now apply add_result_appends.
  - intros records w Hkeys. cbv zeta. rewrite bind_run.
    pose proof (write_header_truncates self w) as [Hok Hhead].
    destruct (write_header self w) as [[[] | e] w1];
      cbn [fst snd] in *; [| discriminate].
    destruct (add_results_append self records Hkeys w1) as [Hok' Hrows].
    split; [assumption |]. split; [| split].
    + rewrite Hrows. unfold content at 1. rewrite Hhead.
      exact (csv_read_written (header_row :: map row_of records)).
    + reflexivity.
    + apply Forall_forall. intros row Hin.
      apply in_map_iff in Hin as (r & <- & _). reflexivity.
Qed.

(** ** Further properties *)

(** *** The results file: missing keys and other files *)

Lemma fs_append_other (fs : filesystem) (name other : string)
    (text : list ascii) :
  other <> name -> fs_append fs name text other = fs other.
Proof.
  intros Hne. unfold fs_append, fs_write.
  apply String.eqb_neq in Hne. now rewrite Hne.
Qed.

Lemma fs_append_exists (fs : filesystem) (name : string) (text : list ascii) :
  fs_append fs name text name <> None.
Proof.
  unfold fs_append, fs_write. rewrite String.eqb_refl. discriminate.
Qed.

(** X1. When one of the 8 score keys is missing from the dictionary,
    [add_result] raises [KeyError] after the log line; no row is written and
    what the file held is unchanged, but the file exists afterwards (it was
    opened for appending before the row was built). *)
Theorem add_result_missing_key self listener song score scores w k :
  In k score_keys ->
  dict_get scores k = None ->
  let out := add_result self listener song score scores w in
  fst out = Raise KeyError
  /\ content (files (snd out)) (file_name self)
     = content (files w) (file_name self)
  /\ files (snd out) (file_name self) <> None
  /\ trace (snd out) = trace w ++ [LogCombined score].
Proof.
  intros Hk Hnone. cbv zeta. unfold add_result.
  rewrite bind_emit, bind_update_files.
  repeat (rewrite bind_from_option;
          match goal with
          | |- context [match dict_get ?d ?key with _ => _ end] =>
              destruct (dict_get d key) eqn:?
          end;
          [| cbn [fst snd files trace];
             rewrite fs_append_content, app_nil_r;
             repeat split; apply fs_append_exists]).
  exfalso. cbn in Hk.
  repeat (destruct Hk as [<- | Hk]; [congruence |]). destruct Hk.
Qed.

(** X2. Neither method of [ResultsFile] touches another file or the random
    generator; [write_header] logs nothing and [add_result] logs the one
    line with the combined score, whether it returns or raises. *)
Theorem results_file_frame self :
  (forall w,
      let out := write_header self w in
      (forall other, other <> file_name self ->
                     files (snd out) other = files w other)
      /\ np_random (snd out) = np_random w
      /\ trace (snd out) = trace w)
  /\ (forall listener song score scores w,
        let out := add_result self listener song score scores w in
        (forall other, other <> file_name self ->
                       files (snd out) other = files w other)
        /\ np_random (snd out) = np_random w
        /\ trace (snd out) = trace w ++ [LogCombined score]).
Proof.
  split.
  - intros w. cbv zeta. unfold write_header, update_files. cbn.
    repeat split. intros other Hne. unfold fs_write.
    apply String.eqb_neq in Hne. now rewrite Hne.
  - intros listener song score scores w. cbv zeta. unfold add_result.
    rewrite bind_emit, bind_update_files.
    repeat (rewrite bind_from_option;
            match goal with
            | |- context [match dict_get ?d ?key with _ => _ end] =>
                destruct (dict_get d key) eqn:?
            end;
            [| cbn [fst snd files trace np_random]; repeat split;
               intros other Hne; now rewrite fs_append_other]).
    unfold update_files. cbn [fst snd files trace np_random]. repeat split.
    intros other Hne. now rewrite !fs_append_other.
Qed.

(** *** The audiogram filter: short, long and incomplete inputs *)

Lemma audiogram_adjusted_from_past_end {A : Type} (audiogram : list A)
    (fs : list Z) :
  forall i,
    (length audiogram <= i)%nat ->
    audiogram_adjusted_from i audiogram fs
    = if existsb (fun f => freq_in f haaqi_audiogram_freq) fs
      then Raise IndexError else Ok [].
Proof.
  induction fs as [| f fs IH]; intros i Hi; [reflexivity |].
  cbn [audiogram_adjusted_from existsb].
  destruct (freq_in f haaqi_audiogram_freq); cbn [orb].
  - apply nth_error_None in Hi. now rewrite Hi.
  - apply IH. lia.
Qed.

Lemma audiogram_adjusted_from_total {A : Type} (fs : list Z) :
  forall (seen rest : list A),
    audiogram_adjusted_from (length seen) (seen ++ rest) fs
    = if existsb (fun f => freq_in f haaqi_audiogram_freq)
           (skipn (length rest) fs)
      then Raise IndexError
      else Ok (map snd
                 (filter (fun p => freq_in (fst p) haaqi_audiogram_freq)
                    (combine fs rest))).
Proof.
  induction fs as [| f fs IH]; intros seen rest.
  - now destruct rest.
  - destruct rest as [| a rest].
    + rewrite app_nil_r. cbn [length skipn combine filter map].
      apply audiogram_adjusted_from_past_end. lia.
    + assert (Hnext : audiogram_adjusted_from (S (length seen))
                        (seen ++ a :: rest) fs
                      = if existsb (fun f => freq_in f haaqi_audiogram_freq)
                             (skipn (length rest) fs)
                        then Raise IndexError
                        else Ok (map snd
                                   (filter
                                      (fun p =>
                                         freq_in (fst p) haaqi_audiogram_freq)
                                      (combine fs rest)))).
      { specialize (IH (seen ++ [a]) rest).
        rewrite <- app_assoc, length_app in IH. cbn in IH.
        now rewrite Nat.add_1_r in IH. }
      cbn [audiogram_adjusted_from combine filter fst length skipn].
      destruct (freq_in f haaqi_audiogram_freq).
      * rewrite nth_error_app2, Nat.sub_diag by lia. cbn [nth_error].
        rewrite Hnext.
        now destruct (existsb _ (skipn (length rest) fs)).
      * exact Hnext.
Qed.

(** X3. The filter of [compute_haaqi] on any two lists: it raises
    [IndexError] exactly when a canonical frequency stands at a position
    past the end of the loss levels; otherwise it returns the levels at the
    canonical positions, levels beyond the last frequency being ignored. *)
Theorem audiogram_adjusted_any_lengths (A : Type) (levels : list A)
    (freqs : list Z) :
  audiogram_adjusted levels freqs
  = if existsb (fun f => freq_in f haaqi_audiogram_freq)
         (skipn (length levels) freqs)
    then Raise IndexError
    else Ok (map snd
               (filter (fun p => freq_in (fst p) haaqi_audiogram_freq)
                  (combine freqs levels))).
Proof.
  exact (audiogram_adjusted_from_total freqs [] levels).
Qed.

Lemma filter_combine_length {A : Type} (p : Z -> bool) (fs : list Z) :
  forall levels : list A,
    length levels = length fs ->
    length (filter (fun x => p (fst x)) (combine fs levels))
    = length (filter p fs).
Proof.
  induction fs as [| f fs IH]; intros levels Hlen; [reflexivity |].
  destruct levels as [| a levels]; [discriminate |].
  injection Hlen as Hlen. cbn [combine filter fst].
  destruct (p f); cbn [length]; rewrite IH by assumption; reflexivity.
Qed.

Lemma canonical_nodup : NoDup haaqi_audiogram_freq.
Proof.
  unfold haaqi_audiogram_freq.
  repeat (constructor; [cbn; intuition discriminate |]). constructor.
Qed.

(** X4. For a listener whose frequencies are distinct (and as many as the
    loss levels), the metric gets at most 6 levels; it gets exactly 6 when
    all of 250, 500, 1000, 2000, 4000 and 6000 Hz are among the
    frequencies, and fewer when one of them is missing. *)
Theorem audiogram_adjusted_length (A : Type) (levels : list A)
    (freqs : list Z) :
  length levels = length freqs ->
  NoDup freqs ->
  exists adjusted,
    audiogram_adjusted levels freqs = Ok adjusted
    /\ (length adjusted <= 6)%nat
    /\ (length adjusted = 6%nat
        <-> forall f, In f haaqi_audiogram_freq -> In f freqs).
Proof.
  intros Hlen Hnodup. eexists. split.
  - exact (audiogram_adjusted_from_spec freqs [] levels Hlen).
  - rewrite length_map,
      (filter_combine_length (fun f => freq_in f haaqi_audiogram_freq))
      by assumption.
    set (kept := filter (fun f => freq_in f haaqi_audiogram_freq) freqs).
    assert (Hkept : NoDup kept) by (apply NoDup_filter; assumption).
    assert (Hincl : incl kept haaqi_audiogram_freq).
    { intros f Hf. apply filter_In in Hf as [_ Hf].
      now apply freq_in_canonical in Hf. }
    assert (Hle : (length kept <= 6)%nat)
      by exact (NoDup_incl_length Hkept Hincl).
    split; [exact Hle |]. split.
    + intros H6 f Hf.
      assert (Hback : incl haaqi_audiogram_freq kept).
      { apply NoDup_length_incl; [assumption | cbn; lia | assumption]. }
      apply Hback in Hf. now apply filter_In in Hf as [Hf _].
    + intros Hall.
      assert (Hback : incl haaqi_audiogram_freq kept).
      { intros f Hf. apply filter_In. split; [auto |].
        now apply freq_in_canonical. }
      pose proof (NoDup_incl_length canonical_nodup Hback) as Hge.
      cbn in Hge. lia.
Qed.

(** *** The list of pairs: membership and repetitions *)

Lemma product_In {A B : Type} (xs : list A) (ys : list B) (x : A) (y : B) :
  In (x, y) (product xs ys) <-> In x xs /\ In y ys.
Proof.
  unfold product. rewrite in_flat_map. split.
  - intros (x' & Hx & Hy). apply in_map_iff in Hy as (y' & E & Hy).
    injection E as -> ->. auto.
  - intros [Hx Hy]. exists x. split; [assumption |].
    apply in_map_iff. eauto.
Qed.

Lemma product_NoDup {A B : Type} (xs : list A) (ys : list B) :
  NoDup xs -> NoDup ys -> NoDup (product xs ys).
Proof.
  intros Hxs Hys. unfold product.
  induction Hxs as [| x xs Hx _ IH]; [constructor |].
  cbn [flat_map]. apply NoDup_app.
  - clear IH. induction Hys as [| y ys Hy _ IHy]; [constructor |].
    cbn [map]. constructor; [| exact IHy].
    intros Hin. apply in_map_iff in Hin as (y' & E & Hy').
    injection E as ->. contradiction.
  - exact IH.
  - intros p Hp Hq. apply in_map_iff in Hp as (y & <- & _).
    apply in_flat_map in Hq as (x' & Hx' & Hq).
    apply in_map_iff in Hq as (y' & E & _). injection E as -> _.
    contradiction.
Qed.

Lemma stride_from_In {A : Type} (step : nat) (l : list A) :
  forall skip x, In x (stride_from step skip l) -> In x l.
Proof.
  induction l as [| a l IH]; intros skip x Hx; [destruct Hx |].
  cbn [stride_from] in Hx. destruct skip as [| skip].
  - destruct Hx as [-> | Hx]; [now left | right; eauto].
  - right. eauto.
Qed.

Lemma stride_from_NoDup {A : Type} (step : nat) (l : list A) :
  NoDup l -> forall skip, NoDup (stride_from step skip l).
Proof.
  induction 1 as [| a l Ha _ IH]; intros skip; [constructor |].
  cbn [stride_from]. destruct skip as [| skip]; [| apply IH].
  constructor; [| apply IH].
  intros Hin. apply stride_from_In in Hin. contradiction.
Qed.

(** X5. Every pair of [make_song_listener_list] is made of a song of the
    list and a key of the listeners, in both modes, and without
    [small_test] every such combination is a pair.  When no song and no
    listener is repeated, no pair is repeated. *)
Theorem make_song_listener_list_members (V : Type) (songs : list string)
    (listeners : dict V) :
  (forall song listener,
      In (song, listener) (make_song_listener_list songs listeners false)
      <-> In song songs /\ In listener (dict_keys listeners))
  /\ (forall song listener,
        In (song, listener) (make_song_listener_list songs listeners true) ->
        In song songs /\ In listener (dict_keys listeners))
  /\ (NoDup songs -> NoDup (dict_keys listeners) ->
      forall b, NoDup (make_song_listener_list songs listeners b)).
Proof.
  unfold make_song_listener_list. split; [| split].
  - intros song listener. apply product_In.
  - intros song listener Hin. apply stride_from_In in Hin.
    now apply product_In.
  - intros Hs Hk b.
    pose proof (product_NoDup songs (dict_keys listeners) Hs Hk) as Hp.
    destruct b; [now apply stride_from_NoDup | assumption].
Qed.

(** *** What the metric is called with *)

(** X6. In the evaluation of an instrument the metric is called at most
    twice, and only once the three files have been read at the configured
    rate and the listener found: first for the left ear, with the left
    channel of the reference, the left enhanced file and the filtered left
    levels, then for the right ear; both sample rates passed are the
    configured rate and the equalisation is 1. *)
Theorem metric_called_after_validation cfg songs las song listener scores i w :
  let out := eval_instrument cfg songs las song listener scores i w in
  let fs := nalr_fs cfg in
  exists t,
    trace (snd out) = trace w ++ t
    /\ (length (metric_calls t) <= 2)%nat
    /\ (metric_calls t <> [] ->
        exists split ref lenh renh a lref rref adjl,
          song_split songs song = Ok split
          /\ wavfile_read (reference_path cfg (split_dir_of split) song i)
             = Some (fs, ref)
          /\ wavfile_read (enhanced_path listener song "left" i)
             = Some (fs, lenh)
          /\ wavfile_read (enhanced_path listener song "right" i)
             = Some (fs, renh)
          /\ dict_get las listener = Some a
          /\ column 0 (normalise_reference (sig_data ref)) = Ok lref
          /\ column 1 (normalise_reference (sig_data ref)) = Ok rref
          /\ audiogram_adjusted (audiogram_levels_l a) (audiogram_cfs a)
             = Ok adjl
          /\ nth_error (metric_calls t) 0
             = Some (mk_metric_args lref fs lenh fs adjl 1)
          /\ forall args,
              nth_error (metric_calls t) 1 = Some args ->
              exists adjr,
                audiogram_adjusted (audiogram_levels_r a) (audiogram_cfs a)
                = Ok adjr
                /\ args = mk_metric_args rref fs renh fs adjr 1).
Proof.
  cbv zeta. run_instrument; close_trace;
    (eexists; split; [reflexivity |]); cbn [metric_calls length nth_error];
    (split; [lia |]); intros Hcalls; try congruence;
    rates_equal; subst;
    do 8 eexists; do 9 (split; [eassumption || reflexivity |]);
    intros args Hargs; try discriminate Hargs;
    injection Hargs as <-; eexists; (split; [eassumption | reflexivity]).
Qed.

(** *** What the evaluation of a pair depends on *)

Lemma eval_instrument_world cfg songs las song listener scores i w :
  eval_instrument cfg songs las song listener scores i w
  = let out := eval_instrument cfg songs las song listener scores i
                 (bare (np_random w)) in
    (fst out,
     mk_world (files w) (np_random (snd out)) (trace w ++ trace (snd out))).
Proof.
  cbv zeta. unfold bare. run_instrument; close_trace; reflexivity.
Qed.

Lemma for_instruments_world cfg songs las song listener todo :
  forall scores w,
    for_instruments cfg songs las song listener todo scores w
    = let out := for_instruments cfg songs las song listener todo scores
                   (bare (np_random w)) in
      (fst out,
       mk_world (files w) (np_random (snd out)) (trace w ++ trace (snd out))).
Proof.
  induction todo as [| i todo IH]; intros scores w; cbv zeta.
  - destruct w as [f g t]. cbn. now rewrite app_nil_r.
  - cbn [for_instruments]. rewrite !bind_run.
    rewrite (eval_instrument_world cfg songs las song listener scores i w).
    cbv zeta.
    destruct (eval_instrument cfg songs las song listener scores i
                (bare (np_random w))) as [[scores' | e] w1];
      cbn [fst snd].
    + rewrite (IH scores' w1). rewrite IH. cbv zeta.
      cbn [np_random files trace fst snd]. rewrite <- app_assoc.
      reflexivity.
    + reflexivity.
Qed.

Lemma add_result_generator rf listener song score scores w :
  np_random (snd (add_result rf listener song score scores w)) = np_random w.
Proof.
  unfold add_result.
  rewrite bind_emit, bind_update_files.
  repeat (rewrite bind_from_option;
          match goal with
          | |- context [match ?x with _ => _ end] => destruct x
          end; [| reflexivity]).
  reflexivity.
Qed.

Lemma eval_pair_unfold cfg songs las rf song listener w :
  eval_pair cfg songs las rf (song, listener) w
  = match for_instruments cfg songs las song listener instruments []
            (mk_world (files w)
               (if set_random_seed cfg then mt_seed (seed_of song)
                else np_random w)
               (trace w ++ pair_prologue (set_random_seed cfg) song listener))
    with
    | (Ok scores, w1) =>
        add_result rf listener song (np_mean (dict_values scores)) scores w1
    | (Raise e, w1) => (Raise e, w1)
    end.
Proof.
  unfold eval_pair, pair_prologue. rewrite bind_emit.
  destruct (set_random_seed cfg).
  - rewrite bind_run, set_song_seed_run, bind_run.
    cbn [files np_random trace]. rewrite <- app_assoc. reflexivity.
  - rewrite bind_run. cbn [ret]. rewrite bind_run. reflexivity.
Qed.

(** X7. With reseeding enabled, the evaluation of a pair does not depend on
    the state it starts from: its outcome, the state it leaves the
    generator in, the events it adds to the trace (the metric calls among
    them) and the text it adds to the results file are the same from every
    state. *)
Theorem seeded_pair_reproducible cfg songs las rf song listener :
  set_random_seed cfg = true ->
  exists outcome generator events text,
    forall w,
      let out := eval_pair cfg songs las rf (song, listener) w in
      fst out = outcome
      /\ np_random (snd out) = generator
      /\ trace (snd out) = trace w ++ events
      /\ content (files (snd out)) (file_name rf)
         = content (files w) (file_name rf) ++ text.
Proof.
  intros Hseed.
  pose proof (for_instruments_scores cfg songs las song listener
                (bare (mt_seed (seed_of song)))) as Hscores.
  destruct (for_instruments cfg songs las song listener instruments []
              (bare (mt_seed (seed_of song)))) as [[scores | e] w1] eqn:Hc;
    cbn [fst] in Hscores.
  - destruct (Hscores scores eq_refl)
      as (ld & rd & lb & rb & lo & ro & lv & rv & ->).
    eexists (Ok tt), (np_random w1), _, _. intros w. cbv zeta.
    rewrite eval_pair_unfold, Hseed, for_instruments_world. cbv zeta.
    cbn [np_random]. fold (bare (mt_seed (seed_of song))). rewrite Hc.
    cbn [fst snd].
    match goal with
    | |- context [add_result ?f ?l ?s ?sc ?d ?w0] =>
        pose proof (add_result_run f l s sc ld rd lb rb lo ro lv rv w0)
          as [Hok Hrow];
        pose proof (add_result_trace f l s sc d w0) as [Htrace _];
        pose proof (add_result_generator f l s sc d w0) as Hgen
    end.
    cbv zeta in Hok, Hrow. cbn [files np_random] in Hrow, Hgen.
    split; [exact Hok |]. split; [exact Hgen |]. split.
    + rewrite Htrace. cbn [trace]. rewrite <- !app_assoc. reflexivity.
    + exact Hrow.
  - exists (Raise e), (np_random w1),
      (pair_prologue true song listener ++ trace w1), []. intros w. cbv zeta.
    rewrite eval_pair_unfold, Hseed, for_instruments_world. cbv zeta.
    cbn [np_random]. fold (bare (mt_seed (seed_of song))). rewrite Hc.
    cbn [fst snd files np_random trace]. rewrite <- app_assoc, app_nil_r.
    repeat split.
Qed.

(** *** The rows of a run *)

Lemma add_result_other_files rf listener song score scores w other :
  other <> file_name rf ->
  files (snd (add_result rf listener song score scores w)) other
  = files w other.
Proof.
  intros Hne. unfold add_result.
  rewrite bind_emit, bind_update_files.
  repeat (rewrite bind_from_option;
          match goal with
          | |- context [match ?x with _ => _ end] => destruct x
          end; [| cbn [fst snd files]; now rewrite fs_append_other]).
  unfold update_files. cbn [fst snd files]. now rewrite !fs_append_other.
Qed.

(** A pair either returns, with one row of 11 fields for it added to the
    results file, or raises, with every file as it was. *)
Lemma eval_pair_outcome cfg songs las rf song listener w :
  let out := eval_pair cfg songs las rf (song, listener) w in
  (forall other, other <> file_name rf ->
                 files (snd out) other = files w other)
  /\ ((fst out = Ok tt
       /\ exists fields,
           length fields = 9%nat
           /\ content (files (snd out)) (file_name rf)
              = content (files w) (file_name rf)
                  ++ csv_writerow (song :: listener :: fields))
      \/ (exists e, fst out = Raise e /\ files (snd out) = files w)).
Proof.
  cbv zeta. rewrite eval_pair_unfold.
  match goal with
  | |- context [for_instruments ?c ?s ?l ?so ?li ?todo ?sc ?w0] =>
      pose proof (for_instruments_frame c s l so li todo sc w0) as (Hf & _);
      pose proof (for_instruments_scores c s l so li w0) as Hscores;
      destruct (for_instruments c s l so li todo sc w0) as [[scores | e] w1]
  end; cbn [fst snd files] in *.
  - destruct (Hscores scores eq_refl)
      as (ld & rd & lb & rb & lo & ro & lv & rv & ->).
    split.
    + intros other Hne. rewrite add_result_other_files by assumption.
      now rewrite Hf.
    + left.
      match goal with
      | |- context [add_result ?f ?l ?s ?sc ?d ?w0] =>
          pose proof (add_result_run f l s sc ld rd lb rb lo ro lv rv w0)
            as [Hok Hrow]
      end.
      cbv zeta in Hok, Hrow. split; [exact Hok |].
      eexists. split; [| rewrite Hrow, Hf; reflexivity]. reflexivity.
  - split; [intros other _; now rewrite Hf |]. right. eauto.
Qed.



(** *** The errors of a run *)

Lemma song_split_raise (songs : list song_row) (song : string) (e : exn) :
  song_split songs song = Raise e -> e = IndexError.
Proof.
  unfold song_split.
  destruct (map Split (filter _ songs)); congruence.
Qed.

Lemma song_split_found (songs : list song_row) (song : string) :
  In song (map Track_Name songs) ->
  exists split, song_split songs song = Ok split.
Proof.
  intros Hin. apply in_map_iff in Hin as (row & Hname & Hrow).
  unfold song_split.
  destruct (filter (fun r => String.eqb (Track_Name r) song) songs)
    as [| r rest] eqn:Hf.
  - assert (Hin : In row (filter (fun r => String.eqb (Track_Name r) song)
                            songs)).
    { apply filter_In. split; [assumption |]. now apply String.eqb_eq. }
    rewrite Hf in Hin. destruct Hin.
  - cbn. eauto.
Qed.

Lemma audiogram_adjusted_raise {A : Type} (levels : list A) (freqs : list Z)
    (e : exn) :
  audiogram_adjusted levels freqs = Raise e -> e = IndexError.
Proof.
  unfold audiogram_adjusted. generalize 0%nat.
  induction freqs as [| f freqs IH]; intros i; cbn [audiogram_adjusted_from].
  - discriminate.
  - destruct (freq_in f haaqi_audiogram_freq); [| apply IH].
    destruct (nth_error levels i); [| congruence].
    specialize (IH (S i)).
    destruct (audiogram_adjusted_from (S i) levels freqs); [discriminate |].
    intros H. injection H as <-. now apply IH.
Qed.

Lemma dict_get_key {V : Type} (d : dict V) (k : string) :
  In k (dict_keys d) -> dict_get d k <> None.
Proof.
  induction d as [| [k' v] d IH]; intros Hin; [destruct Hin |].
  cbn [dict_get]. destruct (String.eqb_spec k' k) as [-> | Hne].
  - discriminate.
  - destruct Hin as [E | Hin]; [cbn in E; congruence | auto].
Qed.

Lemma eval_instrument_errors cfg songs las song listener scores i w e :
  fst (eval_instrument cfg songs las song listener scores i w) = Raise e ->
  dict_get las listener <> None ->
  expected_error e.
Proof.
  unfold expected_error. intros H Hlistener. revert H.
  run_instrument; intros H; try discriminate H; injection H as <-;
    try congruence;
    repeat match goal with
           | H : song_split _ _ = Raise _ |- _ =>
               apply song_split_raise in H; subst
           | H : column _ _ = Raise _ |- _ => apply column_raise in H; subst
           | H : audiogram_adjusted _ _ = Raise _ |- _ =>
               apply audiogram_adjusted_raise in H; subst
           end;
    auto.
Qed.

Lemma for_instruments_errors cfg songs las song listener todo e :
  dict_get las listener <> None ->
  forall scores w,
    fst (for_instruments cfg songs las song listener todo scores w) = Raise e ->
    expected_error e.
Proof.
  intros Hlistener. induction todo as [| i todo IH]; intros scores w.
  - discriminate.
  - cbn [for_instruments]. rewrite bind_run.
    pose proof (eval_instrument_errors cfg songs las song listener scores i w)
      as Hi.
    destruct (eval_instrument cfg songs las song listener scores i w)
      as [[scores' | e'] w1]; cbn [fst snd] in *.
    + apply IH.
    + intros H. injection H as <-. now apply Hi.
Qed.

Lemma for_pairs_errors cfg songs las rf pairs e :
  (forall song listener, In (song, listener) pairs ->
                         In listener (dict_keys las)) ->
  forall w,
    fst (for_pairs cfg songs las rf pairs w) = Raise e ->
    expected_error e.
Proof.
  induction pairs as [| [song listener] pairs IH]; intros Hkeys w.
  - discriminate.
  - cbn [for_pairs]. rewrite bind_run.
    pose proof (eval_pair_outcome cfg songs las rf song listener w)
      as (_ & Hcase).
    assert (Hlistener : dict_get las listener <> None)
      by (apply dict_get_key, (Hkeys song); now left).
    pose proof (for_instruments_errors cfg songs las song listener instruments)
      as Herr.
    rewrite eval_pair_unfold in *.
    match goal with
    | |- context [for_instruments ?c ?s ?l ?so ?li ?todo ?sc ?w0] =>
        specialize (Herr e Hlistener sc w0);
        pose proof (for_instruments_scores c s l so li w0) as Hscores;
        destruct (for_instruments c s l so li todo sc w0)
          as [[scores | e'] w1]
    end; cbn [fst snd] in *.
    + destruct (Hscores scores eq_refl)
        as (ld & rd & lb & rb & lo & ro & lv & rv & ->).
      match goal with
      | |- context [add_result ?f ?l ?s ?sc ?d ?w0] =>
          pose proof (add_result_run f l s sc ld rd lb rb lo ro lv rv w0)
            as [Hok _];
          cbv zeta in Hok;
          destruct (add_result f l s sc d w0) as [[[] | e''] w2]
      end; cbn [fst snd] in *; [| discriminate].
      apply IH. intros s l Hin. apply (Hkeys s). now right.
    + intros H. injection H as <-. now apply Herr.
Qed.

(** X9. On a catalog without songs the run raises [KeyError], when the
    column of track names is looked up.  On any other catalog it raises
    nothing but a file that cannot be read, an index out of range (a
    reference without two channels, or loss levels shorter than the
    frequencies), a failed assertion or an error of the metric: the lookups
    of the split of a song, of a listener and of the 8 scores, and the
    seeding, do not fail. *)
Theorem run_errors cfg songs las w :
  (songs = [] -> fst (run_calculate_aq cfg songs las w) = Raise KeyError)
  /\ (forall e,
        fst (run_calculate_aq cfg songs las w) = Raise e ->
        songs <> [] ->
        expected_error e)
  /\ forall song listener,
      In (song, listener)
        (make_song_listener_list (map Track_Name songs) las (small_test cfg)) ->
      (exists split, song_split songs song = Ok split)
      /\ dict_get las listener <> None.
Proof.
  assert (Hpairs : forall song listener,
             In (song, listener)
               (make_song_listener_list (map Track_Name songs) las
                  (small_test cfg)) ->
             In song (map Track_Name songs) /\ In listener (dict_keys las)).
  { intros song listener Hin. unfold make_song_listener_list in Hin.
    destruct (small_test cfg); [apply stride_from_In in Hin |];
      now apply product_In. }
  split; [| split].
  - intros ->. reflexivity.
  - intros e H Hsongs.
    unfold run_calculate_aq in H. rewrite bind_run in H.
    destruct (write_header (mk_ResultsFile "scores.csv") w)
      as [[[] | e'] w1] eqn:Hhead; [| discriminate Hhead].
    cbn [fst snd] in H. rewrite bind_lift in H.
    destruct songs as [| row songs]; [congruence |]. cbn [track_names] in H.
    apply (for_pairs_errors cfg (row :: songs) las _ _ e
             (fun s l Hin => proj2 (Hpairs s l Hin)) w1 H).
  - intros song listener Hin. destruct (Hpairs song listener Hin) as [Hs Hl].
    split; [now apply song_split_found | now apply dict_get_key].
Qed.

(** *** Seeding disabled *)

Lemma for_pairs_no_seed cfg songs las rf pairs :
  set_random_seed cfg = false ->
  forall w,
    seed_events (trace (snd (for_pairs cfg songs las rf pairs w)))
    = seed_events (trace w).
Proof.
  intros Hseed. induction pairs as [| [song listener] pairs IH]; intros w.
  - reflexivity.
  - cbn [for_pairs]. rewrite bind_run.
    pose proof (eval_pair_trace cfg songs las rf song listener w)
      as (t & Ht & Hs).
    rewrite Hseed in Ht. cbn [pair_prologue] in Ht.
    destruct (eval_pair cfg songs las rf (song, listener) w)
      as [[[] | e] w1]; cbn [fst snd] in *.
    + rewrite IH, Ht, !seed_events_app. cbn. now rewrite Hs, app_nil_r.
    + rewrite Ht, !seed_events_app. cbn. now rewrite Hs, app_nil_r.
Qed.

(** X10. With reseeding disabled the run never seeds the generator: the
    trace holds no call to [np.random.seed] that was not there before. *)
Theorem no_seed_when_disabled cfg songs las w :
  set_random_seed cfg = false ->
  seed_events (trace (snd (run_calculate_aq cfg songs las w)))
  = seed_events (trace w).
Proof.
  intros Hseed. unfold run_calculate_aq. rewrite bind_run.
  unfold write_header at 1, update_files. cbn [fst snd].
  rewrite bind_lift.
  destruct songs as [| row songs]; cbn [track_names]; [reflexivity |].
  now rewrite for_pairs_no_seed.
Qed.

(** *** A reference that cannot be used *)

(** X11. When the reference stem of an instrument cannot be read, its
    evaluation raises [FileNotFoundError]; when it is read but is not an
    array with at least two channels (a mono file), it raises [IndexError].
    In both cases the enhanced files are not read and the metric is not
    called: the reference is the only file touched. *)
Theorem unusable_reference cfg songs las song listener scores i w split :
  song_split songs song = Ok split ->
  let file := reference_path cfg (split_dir_of split) song i in
  let out := eval_instrument cfg songs las song listener scores i w in
  (wavfile_read file = None ->
   fst out = Raise FileNotFoundError
   /\ snd out
      = mk_world (files w) (np_random w)
          (trace w ++ [LogInstrument i; EvRead file]))
  /\ (forall rate s,
        wavfile_read file = Some (rate, s) ->
        (match sig_data s with
         | Arr1 _ => True
         | Arr2 width _ => (width < 2)%nat
         end) ->
        fst out = Raise IndexError
        /\ snd out
           = mk_world (files w) (np_random w)
               (trace w ++ [LogInstrument i; EvRead file])).
Proof.
  intros Hsplit. cbv zeta. split.
  - intros Hnone. run_instrument. close_trace. split; reflexivity.
  - intros rate s Hread Hshape.
    assert (Hcol : column 0 (normalise_reference (sig_data s))
                   = Raise IndexError
                   \/ exists c, column 0 (normalise_reference (sig_data s))
                                = Ok c
                                /\ column 1 (normalise_reference (sig_data s))
                                   = Raise IndexError).
    { unfold column, normalise_reference. cbn [sig_data sig_dtype].
      destruct (sig_data s) as [samples | width frames];
        cbn [ndarray_map]; [now left |].
      destruct width as [| [| width]]; [now left | | lia].
      right. cbn. eauto. }
    unfold eval_instrument.
    rewrite bind_emit, bind_lift, Hsplit, bind_read_wav, Hread, bind_lift.
    destruct Hcol as [-> | (c & -> & Hc1)].
    + close_trace. split; reflexivity.
    + rewrite bind_lift, Hc1. close_trace. split; reflexivity.
Qed.

(** *** The names of the files *)

Lemma append_cancel_l (s a b : string) :
  (s ++ a = s ++ b)%string -> a = b.
Proof.
  induction s as [| c s IH]; cbn; [auto |].
  intros H. injection H as H. auto.
Qed.

Lemma append_assoc (a b c : string) :
  ((a ++ b) ++ c = a ++ (b ++ c))%string.
Proof.
  induction a as [| x a IH]; cbn; [reflexivity | now rewrite IH].
Qed.

(** X13. The left and the right enhanced file of a pair and an instrument
    never have the same name, and neither is the reference file.  The
    names of the enhanced files do not tell pairs apart, though: a
    listener [l_s1] with the song [s2] reads the files of the listener [l]
    with the song [s1_s2]. *)
Theorem enhanced_file_names cfg split_dir listener song i :
  enhanced_path listener song "left" i <> enhanced_path listener song "right" i
  /\ (forall channel,
         reference_path cfg split_dir song i
         <> enhanced_path listener song channel i)
  /\ (forall s1 s2 channel,
         enhanced_path (listener ++ "_" ++ s1) s2 channel i
         = enhanced_path listener (s1 ++ "_" ++ s2) channel i).
Proof.
  split; [| split].
  - unfold enhanced_path, enhanced_folder. cbn [app]. intros H.
    injection H as H.
    apply append_cancel_l in H. cbn in H. injection H as H.
    apply append_cancel_l in H. discriminate H.
  - intros channel. unfold reference_path, enhanced_path, enhanced_folder.
    cbn [app]. discriminate.
  - intros s1 s2 channel. unfold enhanced_path. do 2 f_equal.
    rewrite !append_assoc. reflexivity.
Qed.

(** *** The events of a pair *)

Lemma read_events_app (t t' : list event) :
  read_events (t ++ t') = read_events t ++ read_events t'.
Proof.
  induction t as [| e t IH]; [reflexivity |].
  destruct e; cbn; rewrite ?IH; reflexivity.
Qed.

Lemma metric_calls_app (t t' : list event) :
  metric_calls (t ++ t') = metric_calls t ++ metric_calls t'.
Proof.
  induction t as [| e t IH]; [reflexivity |].
  destruct e; cbn; rewrite ?IH; reflexivity.
Qed.

Lemma logged_scores_app (t t' : list event) :
  logged_scores (t ++ t') = logged_scores t ++ logged_scores t'.
Proof.
  induction t as [| e t IH]; [reflexivity |].
  destruct e; cbn; rewrite ?IH; reflexivity.
Qed.

Lemma quiet_no_logged (t : list event) :
  forallb quiet t = true -> logged_scores t = [].
Proof.
  induction t as [| e t IH]; [reflexivity |].
  cbn [forallb]. intros H. apply andb_true_iff in H as [He Ht].
  destruct e; try discriminate He; cbn; auto.
Qed.

Lemma for_instruments_no_logged cfg songs las song listener todo :
  forall scores w,
    exists t,
      trace (snd (for_instruments cfg songs las song listener todo scores w))
      = trace w ++ t
      /\ logged_scores t = [].
Proof.
  induction todo as [| i todo IH]; intros scores w.
  - exists []. cbn. now rewrite app_nil_r.
  - cbn [for_instruments]. rewrite bind_run.
    pose proof (eval_instrument_frame cfg songs las song listener scores i w)
      as (_ & t & Ht & Hq).
    destruct (eval_instrument cfg songs las song listener scores i w)
      as [[scores' | e] w1]; cbn [fst snd] in *.
    + destruct (IH scores' w1) as (t' & Ht' & Hl').
      exists (LogInstrument i :: t ++ t'). split.
      * rewrite Ht', Ht, <- app_assoc. reflexivity.
      * cbn. now rewrite logged_scores_app, quiet_no_logged, Hl'.
    + exists (LogInstrument i :: t). split; [assumption |].
      cbn. now apply quiet_no_logged.
Qed.

Lemma for_instruments_events cfg songs las song listener split todo :
  song_split songs song = Ok split ->
  forall scores w scores',
    fst (for_instruments cfg songs las song listener todo scores w)
    = Ok scores' ->
    exists t,
      trace (snd (for_instruments cfg songs las song listener todo scores w))
      = trace w ++ t
      /\ read_events t = flat_map (files_of cfg split song listener) todo
      /\ length (metric_calls t) = (2 * length todo)%nat.
Proof.
  intros Hsplit. induction todo as [| i todo IH]; intros scores w scores'.
  - intros _. exists []. cbn. now rewrite app_nil_r.
  - cbn [for_instruments]. rewrite bind_run.
    pose proof (eval_instrument_ok cfg songs las song listener scores i w)
      as Hi. cbv zeta in Hi.
    destruct (eval_instrument cfg songs las song listener scores i w)
      as [[scores1 | e] w1]; cbn [fst snd] in *; [| discriminate].
    intros Hrest.
    destruct (Hi scores1 eq_refl)
      as (split' & ref & lenh & renh & a & lref & rref & adjl & adjr
          & lscore & rscore & Hsplit' & _ & _ & _ & _ & _ & _ & _ & _ & _
          & Ht).
    assert (split' = split) by congruence. subst split'.
    destruct (IH scores1 w1 scores' Hrest) as (t' & Ht' & Hreads & Hcalls).
    eexists. split; [rewrite Ht', Ht, <- app_assoc; reflexivity |].
    rewrite read_events_app, metric_calls_app, length_app, Hreads, Hcalls.
    cbn. split; [reflexivity | lia].
Qed.

Lemma for_instruments_split cfg songs las song listener i todo scores w
      scores' :
  fst (for_instruments cfg songs las song listener (i :: todo) scores w)
  = Ok scores' ->
  exists split, song_split songs song = Ok split.
Proof.
  cbn [for_instruments]. rewrite bind_run.
  pose proof (eval_instrument_ok cfg songs las song listener scores i w)
    as Hi. cbv zeta in Hi.
  destruct (eval_instrument cfg songs las song listener scores i w)
    as [[scores1 | e] w1]; cbn [fst snd] in *; [| discriminate].
  intros _. destruct (Hi scores1 eq_refl) as (split & _ & _ & _ & _ & _ & _
                                              & _ & _ & _ & _ & Hsplit & _).
  eauto.
Qed.

(** X14. A pair that completes has read, for drums, bass, other and vocals
    in this order, the reference, the left and the right enhanced file (12
    reads), has called the metric 8 times, and has logged one combined
    score, after all of these.  A pair that raises has logged none. *)
Theorem completed_pair_events cfg songs las rf song listener w :
  let out := eval_pair cfg songs las rf (song, listener) w in
  exists t,
    trace (snd out) = trace w ++ t
    /\ (fst out = Ok tt ->
        exists split score t',
          song_split songs song = Ok split
          /\ t = t' ++ [LogCombined score]
          /\ read_events t'
             = flat_map (files_of cfg split song listener) instruments
          /\ length (metric_calls t') = 8%nat
          /\ logged_scores t' = [])
    /\ (forall e, fst out = Raise e -> logged_scores t = []).
Proof.
  cbv zeta. rewrite eval_pair_unfold.
  match goal with
  | |- context [for_instruments ?c ?s ?l ?so ?li ?todo ?sc ?w0] =>
      pose proof (for_instruments_no_logged c s l so li todo sc w0)
        as (t & Ht & Hl);
      pose proof (fun split H =>
                    for_instruments_events c s l so li split todo H sc w0)
        as Hevents;
      pose proof (for_instruments_split c s l so li "drums"%string
                    ["bass"; "other"; "vocals"]%string sc w0) as Hsplit;
      fold instruments in Hsplit;
      pose proof (for_instruments_scores c s l so li w0) as Hscores;
      destruct (for_instruments c s l so li todo sc w0) as [[scores | e] w1]
  end; cbn [fst snd trace] in *.
  - destruct (Hscores scores eq_refl)
      as (ld & rd & lb & rb & lo & ro & lv & rv & ->).
    match goal with
    | |- context [add_result ?f ?l ?s ?sc ?d ?w0] =>
        pose proof (add_result_run f l s sc ld rd lb rb lo ro lv rv w0)
          as [Hok _];
        pose proof (add_result_trace f l s sc d w0) as [Htrace _]
    end.
    cbv zeta in Hok. rewrite Htrace, Ht, Hok.
    eexists. split; [rewrite <- !app_assoc; reflexivity |].
    split; [| discriminate]. intros _.
    destruct (Hsplit _ eq_refl) as (split & Hsp).
    destruct (Hevents split Hsp _ eq_refl) as (t0 & Ht0 & Hreads & Hcalls).
    rewrite Ht in Ht0. apply app_inv_head in Ht0. subst t0.
    eexists split, _, _.
    split; [exact Hsp |]. split; [rewrite app_assoc; reflexivity |].
    rewrite read_events_app, metric_calls_app, logged_scores_app, Hreads,
      length_app, Hcalls, Hl.
    unfold pair_prologue. destruct (set_random_seed cfg); repeat split.
  - exists (pair_prologue (set_random_seed cfg) song listener ++ t).
    rewrite Ht, <- app_assoc. split; [reflexivity |].
    split; [discriminate |]. intros _ _.
    rewrite logged_scores_app, Hl.
    unfold pair_prologue. now destruct (set_random_seed cfg).
Qed.

End Harness.

(** ** Concrete runs *)

(** The digests of RFC 1321's test suite and of two padding boundaries. *)
Example md5_empty :
  hexdigest (MD5.digest (encode_utf8 ""))
  = "d41d8cd98f00b204e9800998ecf8427e"%string.
Proof. vm_compute. reflexivity. Qed.

Example md5_abc :
  hexdigest (MD5.digest (encode_utf8 "abc"))
  = "900150983cd24fb0d6963f7d28e17f72"%string.
Proof. vm_compute. reflexivity. Qed.

Example md5_56_bytes :
  hexdigest (MD5.digest (repeat 97 56))
  = "3b0c8ac703f828b04c6c197006d17218"%string.
Proof. vm_compute. reflexivity. Qed.

Example md5_64_bytes :
  hexdigest (MD5.digest (repeat 97 64))
  = "014842d480b571495a4a0363793f7367"%string.
Proof. vm_compute. reflexivity. Qed.

Example seed_of_song1 : seed_of "song1" = 65544297.
Proof. vm_compute. reflexivity. Qed.

Local Notation "'demo_world'" :=
  (mk_world Demo.rng Demo.no_files (0, 0%nat) []).
Local Notation "'demo_results'" := (mk_ResultsFile "scores.csv").

Lemma audiogram_filter_witness :
  length [10; 20; 30]%Q = length [250; 300; 6000]
  /\ audiogram_adjusted [10; 20; 30]%Q [250; 300; 6000] = Ok [10; 30]%Q.
Proof.
  split; [reflexivity |].
  exact (proj1 (audiogram_filter_canonical Q) [250; 300; 6000]
           [10; 20; 30]%Q eq_refl).
Defined.

Lemma make_song_listener_list_witness :
  nth_error ["A"; "B"]%string 1 = Some "B"%string
  /\ nth_error (dict_keys Demo.listeners) 0 = Some "L1"%string
  /\ nth_error (make_song_listener_list ["A"; "B"]%string Demo.listeners false) 2
     = Some ("B", "L1")%string.
Proof.
  split; [reflexivity |]. split; [reflexivity |].
  exact (proj1 (proj2 (make_song_listener_list_enumerates listener_data
                         ["A"; "B"]%string Demo.listeners))
           1%nat 0%nat "B"%string "L1"%string eq_refl eq_refl).
Defined.

Lemma combined_score_witness :
  let out := eval_pair Demo.rng Demo.mt_seed Demo.haaqi_counting
               Demo.wavfile_read Demo.str_float Demo.cfg Demo.songs
               Demo.listeners demo_results ("song1", "L1")%string
               demo_world in
  fst out = Ok tt
  /\ (exists ld rd lb rb lo ro lv rv : float,
         let score := np_mean [ld; rd; lb; rb; lo; ro; lv; rv] in
         content (files _ (snd out)) "scores.csv"
         = content Demo.no_files "scores.csv"
             ++ csv_writerow
                  [ "song1"%string; "L1"%string; Demo.str_float score;
                    Demo.str_float lb; Demo.str_float rb; Demo.str_float ld;
                    Demo.str_float rd; Demo.str_float lo; Demo.str_float ro;
                    Demo.str_float lv; Demo.str_float rv ])
  /\ content (files _ (snd out)) "scores.csv"
     = csv_writerow
         [ "song1"; "L1"; "9/2"; "3/1"; "4/1"; "1/1"; "2/1"; "5/1"; "6/1";
           "7/1"; "8/1" ]%string.
Proof.
  cbv zeta. split; [vm_compute; reflexivity |].
  split; [| vm_compute; reflexivity].
  apply (proj2 (proj2 (proj2 (proj2
           (combined_score_is_mean Demo.rng Demo.mt_seed Demo.haaqi_counting
              Demo.wavfile_read Demo.str_float))))
           Demo.cfg Demo.songs Demo.listeners demo_results
           "song1"%string "L1"%string demo_world).
  vm_compute. reflexivity.
Defined.

Lemma results_file_round_trip_witness :
  let out := bind Demo.rng (write_header Demo.rng demo_results)
               (fun _ => add_results Demo.rng Demo.str_float demo_results
                           Demo.records)
               demo_world in
  Forall (fun r => forall k, In k score_keys ->
                             dict_get (rec_scores r) k <> None) Demo.records
  /\ fst out = Ok tt
  /\ csv_read (content (files _ (snd out)) "scores.csv")
     = Some [ header_row;
              [ "Night, Day"; "L1"; "9/2"; "3/1"; "4/1"; "1/1"; "2/1"; "5/1";
                "6/1"; "7/1"; "8/1" ];
              [ "song1"; "L2"; "9/2"; "3/1"; "4/1"; "1/1"; "2/1"; "5/1";
                "6/1"; "7/1"; "8/1" ] ]%string.
Proof.
  cbv zeta.
  assert (Hkeys : Forall (fun r => forall k, In k score_keys ->
                                             dict_get (rec_scores r) k <> None)
                    Demo.records).
  { repeat constructor; intros k Hk; cbn in Hk;
      repeat (destruct Hk as [<- | Hk]; [discriminate |]); destruct Hk. }
  split; [exact Hkeys |].
  pose proof (proj2 (proj2 (results_file_round_trip Demo.rng Demo.str_float
                              demo_results))
                Demo.records demo_world Hkeys) as H.
  cbv zeta in H. destruct H as (Hok & Hread & _).
  split; [exact Hok | exact Hread].
Defined.

Lemma sample_rate_mismatch_witness :
  let out := eval_pair Demo.rng Demo.mt_seed Demo.haaqi_v1 Demo.wavfile_read
               Demo.str_float Demo.cfg48 Demo.songs Demo.listeners
               demo_results ("song1", "L1")%string demo_world in
  (In "bass"%string instruments
   /\ song_split Demo.songs "song1" = Ok "train"%string
   /\ ~ (44100 = 44100 /\ 44100 = 44100 /\ 44100 = nalr_fs Demo.cfg48))
  /\ (exists e, fst out = Raise e)
  /\ files _ (snd out) = Demo.no_files
  /\ exists t, trace _ (snd out) = t /\ metric_calls_for "bass" t = [].
Proof.
  cbv zeta.
  assert (Hin : In "bass"%string instruments) by (cbn; tauto).
  assert (Hrates : ~ (44100 = 44100 /\ 44100 = 44100
                      /\ 44100 = nalr_fs Demo.cfg48))
    by (cbn; lia).
  split; [split; [exact Hin | split; [reflexivity | exact Hrates]] |].
  pose proof (proj2 (sample_rate_mismatch_is_fatal Demo.rng Demo.mt_seed
                       Demo.haaqi_v1 Demo.wavfile_read Demo.str_float
                       Demo.cfg48 Demo.songs Demo.listeners demo_results
                       "song1"%string "L1"%string "bass"%string demo_world
                       "train"%string 44100 Demo.stereo 44100 Demo.mono 44100
                       Demo.mono Hin eq_refl eq_refl eq_refl eq_refl Hrates))
    as H.
  cbv zeta in H. destruct H as (He & Hf & t & Ht & Hcalls).
  split; [exact He |]. split; [exact Hf |].
  exists t. split; [exact Ht | exact Hcalls].
Defined.

Lemma seed_applied_once_per_pair_witness :
  let out := eval_pair Demo.rng Demo.mt_seed Demo.haaqi_v1 Demo.wavfile_read
               Demo.str_float Demo.cfg Demo.songs Demo.listeners demo_results
               ("song1", "L2")%string demo_world in
  set_random_seed Demo.cfg = true
  /\ exists t,
      trace _ (snd out)
      = LogEvaluating "song1" "L2" :: EvSeed (seed_of "song1") :: t
      /\ seed_events t = [].
Proof.
  cbv zeta. split; [reflexivity |].
  exact (proj1 (seed_applied_once_per_pair Demo.rng Demo.mt_seed Demo.haaqi_v1
                  Demo.wavfile_read Demo.str_float Demo.cfg Demo.songs
                  Demo.listeners demo_results eq_refl)
           "song1"%string "L2"%string demo_world).
Defined.

(** One song and two listeners: the seed of the song is applied twice. *)
Lemma seed_reapplied_for_each_listener :
  let out := run_calculate_aq Demo.rng Demo.mt_seed Demo.haaqi_v1
               Demo.wavfile_read Demo.str_float Demo.cfg Demo.songs
               Demo.listeners demo_world in
  fst out = Ok tt
  /\ map Track_Name Demo.songs = ["song1"%string]
  /\ dict_keys Demo.listeners = ["L1"; "L2"]%string
  /\ seed_events (trace _ (snd out)) = [65544297; 65544297]
  /\ length (seed_events (trace _ (snd out))) <> length Demo.songs.
Proof.
  cbv zeta. repeat split; try (vm_compute; reflexivity).
  vm_compute. discriminate.
Defined.

Lemma reference_divided_by_32768_witness :
  let frames := [[16384; -8192]; [0; 32767]]%Q in
  let out := eval_instrument Demo.rng Demo.haaqi_v1 Demo.wavfile_read
               Demo.cfg Demo.songs Demo.listeners "song1" "L1" [] "drums"
               demo_world in
  sig_dtype Demo.stereo = Int16
  /\ sig_data Demo.stereo = Arr2 2 frames
  /\ metric_calls (trace _ (snd out))
     = [ mk_metric_args (reference_channel 0 frames) 44100 Demo.mono 44100
           [15; 20; 25; 30; 35; 40]%Q 1;
         mk_metric_args (reference_channel 1 frames) 44100 Demo.mono 44100
           [10; 15; 20; 25; 30; 35]%Q 1 ]
  /\ (exists samples,
         sig_data (reference_channel 0 frames) = Arr1 samples
         /\ Forall2 (fun frame x =>
                       x == nth 0 frame 0 / 32768 /\ -1 <= x /\ x < 1)%Q
              frames samples)
  /\ normalise_reference (sig_data Demo.stereo)
     = normalise_by_full_scale Demo.stereo.
Proof.
  cbv zeta.
  pose proof (reference_divided_by_32768 Demo.rng Demo.haaqi_v1
                Demo.wavfile_read) as (Hcalls & _ & Hfull & Hexact).
  split; [reflexivity |]. split; [reflexivity |].
  split; [| split].
  - destruct (Hcalls Demo.cfg Demo.songs Demo.listeners "song1"%string
                "L1"%string [] "drums"%string demo_world "train"%string
                Demo.stereo 2%nat [[16384; -8192]; [0; 32767]]%Q
                Demo.mono Demo.mono
                (mk_listener [125; 250; 500; 1000; 2000; 4000; 6000; 8000]
                   [10; 15; 20; 25; 30; 35; 40; 45]%Q
                   [5; 10; 15; 20; 25; 30; 35; 40]%Q)
                [15; 20; 25; 30; 35; 40]%Q
                eq_refl eq_refl eq_refl (le_n 2) eq_refl eq_refl eq_refl
                eq_refl)
      as (t & rest & Ht & Hm & Hrest).
    cbn [trace app] in Ht. rewrite Ht, Hm.
    rewrite (Hrest 1%float (0, 1%nat) [10; 15; 20; 25; 30; 35]%Q
               eq_refl eq_refl).
    reflexivity.
  - apply (Hexact 0%nat).
    repeat constructor; eexists; (split; [| reflexivity]); lia.
  - exact (Hfull Demo.stereo eq_refl).
Defined.

(** A stem of 32-bit samples: the sample 2^30, half of the full scale of
    its format, reaches the metric as 32768 and not as 1/2. *)
Lemma reference_int32_not_full_scale :
  let out := eval_instrument Demo.rng Demo.haaqi_v1 Demo.wavfile_read32
               Demo.cfg Demo.songs Demo.listeners "song1" "L1" [] "drums"
               demo_world in
  normalise_reference (sig_data Demo.stereo32)
  <> normalise_by_full_scale Demo.stereo32
  /\ (exists x y,
         normalise_by_full_scale Demo.stereo32
         = mk_signal Float32 (Arr2 2 [[x; y]])
         /\ (x == 1 # 2)%Q)
  /\ exists x args,
      nth_error (metric_calls (trace _ (snd out))) 0 = Some args
      /\ reference args = mk_signal Float32 (Arr1 [x])
      /\ (x == 32768)%Q.
Proof.
  cbv zeta. split; [| split].
  - vm_compute. discriminate.
  - eexists _, _. split; [vm_compute; reflexivity |]. vm_compute. reflexivity.
  - eexists _, _. split; [vm_compute; reflexivity |].
    split; [reflexivity |]. vm_compute. reflexivity.
Defined.

Lemma enhanced_passed_as_decoded_witness :
  let frames := [[16384; -8192]; [0; 32767]]%Q in
  let out := eval_instrument Demo.rng Demo.haaqi_v1 Demo.wavfile_read
               Demo.cfg Demo.songs Demo.listeners "song1" "L1" [] "drums"
               demo_world in
  sig_data Demo.stereo = Arr2 2 frames
  /\ Demo.mono
     = mk_signal Int16 (Arr1 (map (fun frame => nth 0 frame 0%Q) frames))
  /\ (exists left_call right_call,
         metric_calls (trace _ (snd out)) = [left_call; right_call]
         /\ processed left_call = Demo.mono
         /\ reference left_call = reference_channel 0 frames
         /\ processed right_call = Demo.mono
         /\ reference right_call = reference_channel 1 frames)
  /\ exists samples,
      sig_data (reference_channel 0 frames) = Arr1 samples
      /\ Forall2 (fun r p => r * 32768 == p /\ (~ p == 0 -> ~ r == p))%Q
           samples [16384; 0]%Q.
Proof.
  cbv zeta.
  pose proof (enhanced_passed_as_decoded Demo.rng Demo.haaqi_v1
                Demo.wavfile_read) as (Hcalls & _ & Hscale).
  split; [reflexivity |]. split; [reflexivity |]. split.
  - destruct (Hcalls Demo.cfg Demo.songs Demo.listeners "song1"%string
                "L1"%string [] "drums"%string demo_world "train"%string
                Demo.stereo 2%nat [[16384; -8192]; [0; 32767]]%Q
                Demo.mono Demo.mono
                (mk_listener [125; 250; 500; 1000; 2000; 4000; 6000; 8000]
                   [10; 15; 20; 25; 30; 35; 40; 45]%Q
                   [5; 10; 15; 20; 25; 30; 35; 40]%Q)
                [15; 20; 25; 30; 35; 40]%Q
                eq_refl eq_refl eq_refl (le_n 2) eq_refl eq_refl eq_refl
                eq_refl)
      as (t & left_call & rest & Ht & Hm & Hp & Hr & Hrest).
    destruct (Hrest 1%float (0, 1%nat) [10; 15; 20; 25; 30; 35]%Q
                eq_refl eq_refl)
      as (right_call & Hone & Hp' & Hr').
    exists left_call, right_call.
    cbn [trace app] in Ht. rewrite Ht, Hm, Hone. repeat split; assumption.
  - apply (Hscale 0%nat [[16384; -8192]; [0; 32767]]%Q).
    repeat constructor; eexists; (split; [| reflexivity]); lia.
Defined.

Lemma reference_read_from_train_witness :
  let songs := [ mk_song_row "song1" "valid"; mk_song_row "song1" "test" ] in
  let out := eval_instrument Demo.rng Demo.haaqi_v1 Demo.wavfile_read Demo.cfg
               songs Demo.listeners "song1" "L1" [] "drums" demo_world in
  songs = [] ++ mk_song_row "song1" "valid" :: [mk_song_row "song1" "test"]
  /\ Split (mk_song_row "song1" "valid") <> "test"%string
  /\ exists t,
      trace _ (snd out)
      = LogInstrument "drums"
          :: EvRead ["music"; "train"; "song1"; "drums.wav"]%string :: t.
Proof.
  cbv zeta.
  assert (Hsplit : Split (mk_song_row "song1" "valid") <> "test"%string)
    by discriminate.
  split; [reflexivity |]. split; [exact Hsplit |].
  exact (proj1 (proj2 (reference_read_from_train Demo.rng Demo.haaqi_v1
                         Demo.wavfile_read Demo.cfg
                         [ mk_song_row "song1" "valid";
                           mk_song_row "song1" "test" ]
                         Demo.listeners "song1"%string "L1"%string []
                         "drums"%string demo_world []
                         (mk_song_row "song1" "valid")
                         [mk_song_row "song1" "test"]
                         eq_refl eq_refl (Forall_nil _)))
           Hsplit).
Defined.

(** ** Concrete runs of the further properties *)

Lemma add_result_missing_key_witness :
  let out := add_result Demo.rng Demo.str_float demo_results "L1" "song1" 1
               [("left_bass"%string, 1%float)] demo_world in
  In "right_bass"%string score_keys
  /\ dict_get [("left_bass"%string, 1%float)] "right_bass" = None
  /\ fst out = Raise KeyError
  /\ files _ (snd out) "scores.csv"%string <> None.
Proof.
  cbv zeta.
  assert (Hin : In "right_bass"%string score_keys) by (cbn; tauto).
  split; [exact Hin |]. split; [reflexivity |].
  pose proof (add_result_missing_key Demo.rng Demo.str_float demo_results
                "L1"%string "song1"%string 1%float [("left_bass"%string, 1%float)]
                demo_world "right_bass"%string Hin eq_refl) as H.
  cbv zeta in H. destruct H as (Hraise & _ & Hexists & _).
  split; [exact Hraise | exact Hexists].
Defined.

Lemma results_file_frame_witness :
  let out := add_result Demo.rng Demo.str_float demo_results "L1" "song1" 1
               Demo.scores demo_world in
  "notes.txt"%string <> "scores.csv"%string
  /\ files _ (snd out) "notes.txt"%string = None.
Proof.
  cbv zeta.
  assert (Hne : "notes.txt"%string <> "scores.csv"%string) by discriminate.
  split; [exact Hne |].
  exact (proj1 (proj2 (results_file_frame Demo.rng Demo.str_float demo_results)
                  "L1"%string "song1"%string 1%float Demo.scores demo_world)
           "notes.txt"%string Hne).
Defined.

Lemma audiogram_adjusted_length_witness :
  length [1; 2; 3]%Q = length [250; 300; 6000]
  /\ NoDup [250; 300; 6000]
  /\ exists adjusted,
      audiogram_adjusted [1; 2; 3]%Q [250; 300; 6000] = Ok adjusted
      /\ (length adjusted <= 6)%nat.
Proof.
  assert (Hnodup : NoDup [250; 300; 6000]).
  { repeat (constructor; [cbn; intuition discriminate |]). constructor. }
  split; [reflexivity |]. split; [exact Hnodup |].
  destruct (audiogram_adjusted_length Q [1; 2; 3]%Q [250; 300; 6000] eq_refl
              Hnodup) as (adjusted & Hok & Hle & _).
  exists adjusted. split; [exact Hok | exact Hle].
Defined.

Lemma make_song_listener_list_members_witness :
  In "B"%string ["A"; "B"]%string
  /\ In "L2"%string (dict_keys Demo.listeners)
  /\ In ("B", "L2")%string
       (make_song_listener_list ["A"; "B"]%string Demo.listeners false).
Proof.
  assert (Hs : In "B"%string ["A"; "B"]%string) by (cbn; tauto).
  assert (Hl : In "L2"%string (dict_keys Demo.listeners)) by (cbn; tauto).
  split; [exact Hs |]. split; [exact Hl |].
  exact (proj2 (proj1 (make_song_listener_list_members listener_data
                         ["A"; "B"]%string Demo.listeners)
                  "B"%string "L2"%string)
           (conj Hs Hl)).
Defined.

Lemma metric_called_after_validation_witness :
  let out := eval_instrument Demo.rng Demo.haaqi_v1 Demo.wavfile_read Demo.cfg
               Demo.songs Demo.listeners "song1" "L1" [] "drums" demo_world in
  metric_calls (trace _ (snd out)) <> []
  /\ exists lref lenh adjl,
      nth_error (metric_calls (trace _ (snd out))) 0
      = Some (mk_metric_args lref 44100 lenh 44100 adjl 1).
Proof.
  cbv zeta.
  pose proof (metric_called_after_validation Demo.rng Demo.haaqi_v1
                Demo.wavfile_read Demo.cfg Demo.songs Demo.listeners
                "song1"%string "L1"%string [] "drums"%string demo_world) as H.
  cbv zeta in H. destruct H as (t & Ht & _ & Hcalls).
  cbn [trace app] in Ht. rewrite <- Ht in Hcalls.
  assert (Hne : metric_calls
                  (trace _
                     (snd (eval_instrument Demo.rng Demo.haaqi_v1
                             Demo.wavfile_read Demo.cfg Demo.songs
                             Demo.listeners "song1" "L1" [] "drums"
                             demo_world))) <> [])
    by (vm_compute; discriminate).
  split; [exact Hne |].
  destruct (Hcalls Hne)
    as (split & ref & lenh & renh & a & lref & rref & adjl & _ & _ & _ & _
        & _ & _ & _ & _ & Hfirst & _).
  exists lref, lenh, adjl. exact Hfirst.
Defined.

Lemma seeded_pair_reproducible_witness :
  set_random_seed Demo.cfg = true
  /\ exists outcome generator events text,
      forall w,
        let out := eval_pair Demo.rng Demo.mt_seed Demo.haaqi_v1
                     Demo.wavfile_read Demo.str_float Demo.cfg Demo.songs
                     Demo.listeners demo_results ("song1", "L1")%string w in
        fst out = outcome
        /\ np_random _ (snd out) = generator
        /\ trace _ (snd out) = trace _ w ++ events
        /\ content (files _ (snd out)) "scores.csv"
           = content (files _ w) "scores.csv" ++ text.
Proof.
  split; [reflexivity |].
  exact (seeded_pair_reproducible Demo.rng Demo.mt_seed Demo.haaqi_v1
           Demo.wavfile_read Demo.str_float Demo.cfg Demo.songs Demo.listeners
           demo_results "song1"%string "L1"%string eq_refl).
Defined.


Lemma run_errors_witness :
  let out := run_calculate_aq Demo.rng Demo.mt_seed Demo.haaqi_v1
               Demo.wavfile_read Demo.str_float Demo.cfg48 Demo.songs
               Demo.listeners demo_world in
  let out0 := run_calculate_aq Demo.rng Demo.mt_seed Demo.haaqi_v1
                Demo.wavfile_read Demo.str_float Demo.cfg48 []
                Demo.listeners demo_world in
  fst out = Raise AssertionError
  /\ Demo.songs <> []
  /\ expected_error AssertionError
  /\ fst out0 = Raise KeyError
  /\ ~ expected_error KeyError.
Proof.
  cbv zeta.
  assert (Hraise : fst (run_calculate_aq Demo.rng Demo.mt_seed Demo.haaqi_v1
                          Demo.wavfile_read Demo.str_float Demo.cfg48
                          Demo.songs Demo.listeners demo_world)
                   = Raise AssertionError)
    by (vm_compute; reflexivity).
  assert (Hsongs : Demo.songs <> []) by discriminate.
  split; [exact Hraise |]. split; [exact Hsongs |].
  split; [exact (proj1 (proj2 (run_errors Demo.rng Demo.mt_seed Demo.haaqi_v1
                                 Demo.wavfile_read Demo.str_float Demo.cfg48
                                 Demo.songs Demo.listeners demo_world))
                   AssertionError Hraise Hsongs) |].
  split; [exact (proj1 (run_errors Demo.rng Demo.mt_seed Demo.haaqi_v1
                          Demo.wavfile_read Demo.str_float Demo.cfg48 []
                          Demo.listeners demo_world) eq_refl) |].
  unfold expected_error. intros [H | [H | [H | H]]]; discriminate H.
Defined.

Lemma no_seed_when_disabled_witness :
  set_random_seed Demo.cfg_no_seed = false
  /\ seed_events
       (trace _
          (snd (run_calculate_aq Demo.rng Demo.mt_seed Demo.haaqi_v1
                  Demo.wavfile_read Demo.str_float Demo.cfg_no_seed Demo.songs
                  Demo.listeners demo_world)))
     = [].
Proof.
  split; [reflexivity |].
  exact (no_seed_when_disabled Demo.rng Demo.mt_seed Demo.haaqi_v1
           Demo.wavfile_read Demo.str_float Demo.cfg_no_seed Demo.songs
           Demo.listeners demo_world eq_refl).
Defined.

Lemma unusable_reference_witness :
  let out := eval_instrument Demo.rng Demo.haaqi_v1 Demo.no_wav Demo.cfg
               Demo.songs Demo.listeners "song1" "L1" [] "drums" demo_world in
  song_split Demo.songs "song1" = Ok "train"%string
  /\ Demo.no_wav ["music"; "train"; "song1"; "drums.wav"]%string = None
  /\ fst out = Raise FileNotFoundError
  /\ trace _ (snd out)
     = [ LogInstrument "drums";
         EvRead ["music"; "train"; "song1"; "drums.wav"]%string ].
Proof.
  cbv zeta. split; [reflexivity |]. split; [reflexivity |].
  pose proof (proj1 (unusable_reference Demo.rng Demo.haaqi_v1 Demo.no_wav
                       Demo.cfg Demo.songs Demo.listeners "song1"%string
                       "L1"%string [] "drums"%string demo_world
                       "train"%string eq_refl) eq_refl) as [Hraise Hworld].
  split; [exact Hraise |]. rewrite Hworld. reflexivity.
Defined.

Lemma enhanced_file_names_witness :
  enhanced_path "L1" "song1" "left" "drums"
  <> enhanced_path "L1" "song1" "right" "drums"
  /\ enhanced_path "L_1" "song" "left" "drums"
     = enhanced_path "L" "1_song" "left" "drums".
Proof.
  split.
  - exact (proj1 (enhanced_file_names Demo.cfg "train" "L1" "song1" "drums")).
  - exact (proj2 (proj2 (enhanced_file_names Demo.cfg "train" "L" "song1"
                           "drums"))
             "1"%string "song"%string "left"%string).
Defined.

Lemma completed_pair_events_witness :
  let out := eval_pair Demo.rng Demo.mt_seed Demo.haaqi_v1 Demo.wavfile_read
               Demo.str_float Demo.cfg Demo.songs Demo.listeners demo_results
               ("song1", "L1")%string demo_world in
  fst out = Ok tt
  /\ exists score t',
      trace _ (snd out) = t' ++ [LogCombined score]
      /\ length (metric_calls t') = 8%nat
      /\ length (read_events t') = 12%nat.
Proof.
  cbv zeta.
  assert (Hok : fst (eval_pair Demo.rng Demo.mt_seed Demo.haaqi_v1
                       Demo.wavfile_read Demo.str_float Demo.cfg Demo.songs
                       Demo.listeners demo_results ("song1", "L1")%string
                       demo_world) = Ok tt)
    by (vm_compute; reflexivity).
  split; [exact Hok |].
  pose proof (completed_pair_events Demo.rng Demo.mt_seed Demo.haaqi_v1
                Demo.wavfile_read Demo.str_float Demo.cfg Demo.songs
                Demo.listeners demo_results "song1"%string "L1"%string
                demo_world) as H.
  cbv zeta in H. destruct H as (t & Ht & Hdone & _).
  destruct (Hdone Hok) as (split & score & t' & _ & -> & Hreads & Hcalls & _).
  exists score, t'. split; [exact Ht |]. split; [exact Hcalls |].
  rewrite Hreads. reflexivity.
Defined.
